(** * Face filter, contact sheets and the search pipeline of [project.py]

    A shallow embedding of [project.py]: the face filter [find_faces], the
    contact-sheet builder [make_contact_sheet], the compositor
    [concatenate_images], the phrase test [phrase_in] and the orchestrator
    [do_project], followed by the properties the specification states about
    them.

    Conventions.
    - Python integers are [Z].  Box coordinates come from a detector run on
      one raster, so the sums [x+w] and [y+h] stay inside the raster and are
      taken without wrap-around.
    - A Python exception is a value [Raise e] of the [result] type.
    - The cascade classifiers, the OCR engine, the colour conversion, the
      thumbnail resampling and the font are collaborators of the program;
      they are the fields of the class [Externals].
    - A dictionary is an object: its identity is the field [oid] of [Doc],
      and two list elements with the same [oid] are the same dictionary.
    - [print] calls are not modelled. *)

From Stdlib Require Import ZArith QArith List String Ascii Bool Lia.
From Stdlib Require Import Sorted Permutation.
Import ListNotations.
Open Scope Z_scope.

(** ** Exceptions *)

Inductive exn : Type :=
| UnboundLocalError
| KeyError
| TypeError
| IndexError
| ValueError.

Inductive result (A : Type) : Type :=
| Ok (a : A)
| Raise (e : exn).
Arguments Ok {A} a.
Arguments Raise {A} e.

Definition bind {A B : Type} (m : result A) (k : A -> result B) : result B :=
  match m with
  | Ok a => k a
  | Raise e => Raise e
  end.

Notation "x <- m ;; k" := (bind m (fun x => k))
  (at level 61, m at next level, right associativity).

Fixpoint mapM {A B : Type} (f : A -> result B) (l : list A) : result (list B) :=
  match l with
  | [] => Ok []
  | a :: t => b <- f a ;; bs <- mapM f t ;; Ok (b :: bs)
  end.

(** ** Bounding boxes *)

(** A row [x, y, w, h] of a detector's output. *)
Definition Box : Type := (Z * Z * Z * Z)%type.

Definition box_eqb (a b : Box) : bool :=
  let '(x, y, w, h) := a in
  let '(x', y', w', h') := b in
  (x =? x') && (y =? y') && (w =? w') && (h =? h').

(** Python compares the lists [[x, y, w, h]] element by element: the first
    position where they differ decides. *)
Definition box_compare (a b : Box) : comparison :=
  let '(x, y, w, h) := a in
  let '(x', y', w', h') := b in
  match x ?= x' with
  | Eq => match y ?= y' with
          | Eq => match w ?= w' with
                  | Eq => h ?= h'
                  | c => c
                  end
          | c => c
          end
  | c => c
  end.

Definition box_ltb (a b : Box) : bool :=
  match box_compare a b with Lt => true | _ => false end.

Definition box_le (a b : Box) : Prop := box_compare a b <> Gt.
Definition box_lt (a b : Box) : Prop := box_compare a b = Lt.

(** ** The face filter: lines 63-75 of [find_faces] *)

(** The test of line 68, [x<=testx<=x1 and y<=testy<=y1]. *)
Definition eye_in_face (face eye : Box) : bool :=
  let '(x, y, w, h) := face in
  let '(testx, testy, _, _) := eye in
  let x1 := x + w in
  let y1 := y + h in
  ((x <=? testx) && (testx <=? x1)) && ((y <=? testy) && (testy <=? y1)).

(** The inner loop, lines 67-71: one [append] per eye box that passes. *)
Definition eyes_loop (face : Box) (eyes : list Box) (face_list : list Box)
  : list Box :=
  fold_left
    (fun acc eye => if eye_in_face face eye then acc ++ [face] else acc)
    eyes face_list.

(** The outer loop, lines 63-71. *)
Definition faces_loop (faces eyes : list Box) : list Box :=
  fold_left (fun acc face => eyes_loop face eyes acc) faces [].

(** [sorted]: the result is the ordered arrangement of the list; boxes that
    compare equal are equal, so the choice of algorithm does not show. *)
Fixpoint insert_box (b : Box) (l : list Box) : list Box :=
  match l with
  | [] => [b]
  | a :: t => if box_ltb b a then b :: l else a :: insert_box b t
  end.

Definition sorted (l : list Box) : list Box := fold_right insert_box [] l.

(** [itertools.groupby] without a key function, reduced to its keys:
    [groupby_from k l] lists the keys of the groups that follow the group
    whose key [k] is the current one. *)
Fixpoint groupby_from (k : Box) (l : list Box) : list Box :=
  match l with
  | [] => []
  | a :: t => if box_eqb a k then groupby_from k t else a :: groupby_from a t
  end.

Definition groupby_keys (l : list Box) : list Box :=
  match l with
  | [] => []
  | a :: t => a :: groupby_from a t
  end.

(** Lines 63-75 of [find_faces], on the two detector outputs. *)
Definition find_faces_on (faces eyes : list Box) : list Box :=
  let face_list := faces_loop faces eyes in
  let face_list_s := sorted face_list in
  let new_list := groupby_keys face_list_s in
  new_list.

(** What the specification calls a validated face. *)
Definition validated (faces eyes : list Box) (F : Box) : Prop :=
  In F faces /\
  exists E, In E eyes /\
    let '(x, y, w, h) := F in
    let '(ex, ey, _, _) := E in
    x <= ex <= x + w /\ y <= ey <= y + h.

Definition box_eq_dec (a b : Box) : {a = b} + {a <> b}.
Proof. repeat decide equality. Defined.

(** An eye box with its width and height replaced. *)
Definition resize_box (w h : Z) (b : Box) : Box :=
  let '(x, y, _, _) := b in (x, y, w, h).

(** ** Rasters *)

(** An RGB pixel, 8 bits per channel. *)
Definition Pixel : Type := (Z * Z * Z)%type.
Definition black : Pixel := (0, 0, 0).
Definition white : Pixel := (255, 255, 255).

(** A PIL image of mode RGB: its size and its pixel buffer, read as a map
    from coordinates to pixels; only the coordinates inside the size count. *)
Record Image : Type := mkImage {
  width : Z;
  height : Z;
  pix : Z -> Z -> Pixel
}.

Definition in_bounds (img : Image) (x y : Z) : bool :=
  ((0 <=? x) && (x <? width img)) && ((0 <=? y) && (y <? height img)).

(** [img.getpixel((x, y))]; [None] outside the image. *)
Definition getpixel (img : Image) (x y : Z) : option Pixel :=
  if in_bounds img x y then Some (pix img x y) else None.

(** [Image.new('RGB', (w, h))]: a black canvas. *)
Definition Image_new (w h : Z) : Image := mkImage w h (fun _ _ => black).

(** [dst.paste(src, (ox, oy))]: the part of [src] that falls on [dst]
    replaces what was there; the size of [dst] does not change. *)
Definition paste (dst src : Image) (xy : Z * Z) : Image :=
  let '(ox, oy) := xy in
  mkImage (width dst) (height dst)
    (fun x y => match getpixel src (x - ox) (y - oy) with
                | Some p => p
                | None => pix dst x y
                end).

(** [img.crop((left, upper, right, lower))]: a new image; what lies outside
    [img] is black, and a box turned inside out is refused. *)
Definition crop (img : Image) (box : Z * Z * Z * Z) : result Image :=
  let '(x0, y0, x1, y1) := box in
  if (x1 <? x0) || (y1 <? y0) then Raise ValueError
  else Ok (mkImage (x1 - x0) (y1 - y0)
             (fun x y => match getpixel img (x + x0) (y + y0) with
                         | Some p => p
                         | None => black
                         end)).

(** [ImageDraw.rectangle([x0, y0, x1, y1], outline=c, fill=c)]: both corners
    belong to the rectangle. *)
Definition rectangle (img : Image) (xy : Z * Z * Z * Z) (c : Pixel) : Image :=
  let '(x0, y0, x1, y1) := xy in
  mkImage (width img) (height img)
    (fun x y => if ((x0 <=? x) && (x <=? x1)) && ((y0 <=? y) && (y <=? y1))
                then c else pix img x y).

(** ** Collaborators *)

(** The two module-level classifiers. *)
Inductive Cascade : Type := face_cascade | eye_cascade.

Class Externals : Type := {
  (** a numpy raster *)
  Array : Type;
  (** For two different dictionary objects, given by their identities: the
      outcome of comparing their ['image'], ['cv'] and ['gray'] entries, in
      that order, with [==].  PIL compares class, mode, size, info, palette
      and bytes of two images; numpy compares two rasters element by
      element, and the result has a truth value only if it has a single
      element: [None] stands for the [ValueError] raised when it has not. *)
  rasters_eq : nat -> nat -> option bool;
  (** [cv.cvtColor(a, cv.COLOR_BGR2GRAY)] *)
  cvtColor : Array -> Array;
  (** [pytesseract.image_to_string] *)
  image_to_string : Array -> string;
  (** [cascade.detectMultiScale(a, scaleFactor, minSize, maxSize,
      minNeighbors)] *)
  detectMultiScale : Cascade -> Array -> Q -> Z * Z -> Z * Z -> Z -> list Box;
  (** [img.thumbnail(size)], as the image it leaves behind *)
  thumbnail : Image -> Z * Z -> Image;
  (** the module-level [FONT]: the coverage, from 0 to 255, that the
      rendering of a string gives each pixel, relative to the anchor *)
  FONT : string -> Z -> Z -> Z;
  (** what a pixel becomes when ink of a given colour is laid over it with a
      given coverage: [blend coverage ink old] *)
  blend : Z -> Pixel -> Pixel -> Pixel
}.

Section Pipeline.
Context {E : Externals}.

(** [ImageDraw.text(xy, text, font=FONT, fill=c)]: the mask of the text is
    laid over the image in the colour [c], anti-aliased edges included. *)
Definition draw_text (img : Image) (xy : Z * Z) (s : string) (c : Pixel)
  : Image :=
  let '(ax, ay) := xy in
  mkImage (width img) (height img)
    (fun x y => blend (FONT s (x - ax) (y - ay)) c (pix img x y)).

(** ** Documents *)

(** The image dictionary: ['title'], ['image'] and ['cv'] are there from the
    start, ['gray'] and ['text'] are added by [cvt_color] and [get_text].
    [oid] is the identity of the dictionary object, Python's [id(img)]. *)
Record Doc : Type := mkDoc {
  oid : nat;
  title : string;
  image : Image;
  cv : Array;
  gray : option Array;
  text : option string
}.

(** [d[key]] for a key that may be missing. *)
Definition item {A : Type} (o : option A) : result A :=
  match o with
  | Some a => Ok a
  | None => Raise KeyError
  end.

Definition option_eqb {A : Type} (eqb : A -> A -> bool) (a b : option A)
  : bool :=
  match a, b with
  | Some x, Some y => eqb x y
  | None, None => true
  | _, _ => false
  end.

Definition has_key {A : Type} (o : option A) : bool :=
  match o with
  | Some _ => true
  | None => false
  end.

(** [img == other] on two image dictionaries.  Dictionaries with different
    keys are unequal.  Otherwise the values are compared key by key, in the
    order in which the keys were inserted (title, image, cv, gray, text),
    and the first difference decides.  A value that is the same object on
    both sides counts as equal without being compared, which is the case
    of every value when both sides are the same dictionary; the rasters of
    two different dictionaries are compared by [rasters_eq], and a
    comparison without a truth value raises [ValueError]. *)
Definition dict_eq (a b : Doc) : result bool :=
  if negb (Bool.eqb (has_key (gray a)) (has_key (gray b)) &&
           Bool.eqb (has_key (text a)) (has_key (text b)))
  then Ok false
  else if negb (String.eqb (title a) (title b)) then Ok false
  else
    rasters <- (if Nat.eqb (oid a) (oid b) then Ok true
                else match rasters_eq (oid a) (oid b) with
                     | Some t => Ok t
                     | None => Raise ValueError
                     end) ;;
    if rasters : bool then Ok (option_eqb String.eqb (text a) (text b))
    else Ok false.

Definition cvt_color (img_list : list Doc) : list Doc :=
  map (fun img => mkDoc (oid img) (title img) (image img) (cv img)
                    (Some (cvtColor (cv img))) (text img))
      img_list.

Definition get_text (img_list : list Doc) : result (list Doc) :=
  mapM (fun img =>
          g <- item (gray img) ;;
          let text := image_to_string g in
          Ok (mkDoc (oid img) (title img) (image img) (cv img) (gray img)
                (Some text)))
       img_list.

(** ** Detection *)

Definition get_bounding_boxes (image_array : Array) (cascade : Cascade)
    (size : Z * Z) (scale : Q) (minN : Z) : list Box :=
  detectMultiScale cascade image_array scale size (300, 300) minN.

Definition find_faces (img : Doc) : result (list Box) :=
  g <- item (gray img) ;;
  let faces := get_bounding_boxes g face_cascade (50, 50) (131 # 100)%Q 3 in
  g <- item (gray img) ;;
  let eyes := get_bounding_boxes g eye_cascade (10, 10) (118 # 100)%Q 0 in
  Ok (find_faces_on faces eyes).

(** ** Crops and thumbnails *)

Definition get_faces (img : Doc) (boxes : list Box) : result (list Image) :=
  let pil_image := image img in
  mapM (fun b : Box =>
          let '(x, y, w, h) := b in crop pil_image (x, y, x + w, y + h))
       boxes.

Definition make_thumbnails (img_list : list Image) : list Image :=
  map (fun img => thumbnail img (100, 100)) img_list.

(** ** Phrase search *)

(** [p in s] on two strings. *)
Fixpoint substring_in (p s : string) : bool :=
  if prefix p s then true
  else match s with
       | EmptyString => false
       | String _ s' => substring_in p s'
       end.

(** The search phrase is a string, on which [str] is the identity. *)
Definition phrase_in (img : Doc) (search_phrase : string) : result bool :=
  t <- item (text img) ;;
  if substring_in search_phrase t then Ok true else Ok false.

(** [search_page] falls off its end, and returns [None], when the phrase is
    not in the text. *)
Definition search_page (img : Doc) (search_phrase : string) (faces : list Box)
  : result (option (list Image * string)) :=
  t <- item (text img) ;;
  if substring_in search_phrase t then
    face_list <- get_faces img faces ;;
    let results := ("Results found in file " ++ title img)%string in
    Ok (Some (face_list, results))
  else Ok None.

(** ** Contact sheets *)

(** Lines 162-166: the number of grid rows.  [int(n/5)] is the integer
    quotient for every length a list can have. *)
Definition sheet_rows (n : Z) : Z :=
  let height := n / 5 in
  let height := if negb (n mod 5 =? 0) then height + 1 else height in
  let height := if n =? 0 then height + 1 else height in
  height.

(** Lines 167-173: the canvas with its banner, before any thumbnail. *)
Definition sheet_canvas (n : Z) (results : string) : Image :=
  let height := sheet_rows n in
  let contact_sheet := Image_new 500 (height * 100 + 50) in
  let contact_sheet := rectangle contact_sheet (0, 0, 500, 50) white in
  let contact_sheet := draw_text contact_sheet (5, 5) results black in
  if n =? 0 then
    let contact_sheet := rectangle contact_sheet (0, 50, 500, 150) white in
    draw_text contact_sheet (5, 55) "But there were no faces in that file!"
      black
  else contact_sheet.

(** One turn of the loop of lines 176-182, on the sheet and the cursor. *)
Definition paste_step (st : Image * Z * Z) (img : Image) : Image * Z * Z :=
  let '(contact_sheet, x, y) := st in
  let contact_sheet := paste contact_sheet img (x, y) in
  if x + 100 =? width contact_sheet then (contact_sheet, 0, y + 100)
  else (contact_sheet, x + 100, y).

Definition make_contact_sheet (img_list : list Image) (results : string)
  : Image :=
  let contact_sheet := sheet_canvas (Z.of_nat (List.length img_list)) results in
  let x := 0 in
  let y := 50 in
  let '(contact_sheet, _, _) :=
    fold_left paste_step img_list (contact_sheet, x, y) in
  contact_sheet.

(** ** Compositor *)

Definition concatenate_images (img1 img2 : Image) : Image :=
  let result := Image_new (width img1) (height img1 + height img2) in
  let result := paste result img1 (0, 0) in
  let result := paste result img2 (0, height img1) in
  result.

(** ** Orchestrator *)

(** Reading a local variable that may not have been assigned yet. *)
Definition local {A : Type} (v : option A) : result A :=
  match v with
  | Some a => Ok a
  | None => Raise UnboundLocalError
  end.

Definition subscript0 {A : Type} (l : list A) : result A :=
  match l with
  | a :: _ => Ok a
  | [] => Raise IndexError
  end.

(** The body of the loop of lines 213-223; [contact_sheet] is the local
    variable of that name, [None] while it is unassigned. *)
Definition project_step (img_list : list Doc) (phrase_to_search : string)
    (contact_sheet : option Image) (img : Doc) : result (option Image) :=
  faces <- find_faces img ;;
  found <- phrase_in img phrase_to_search ;;
  if found : bool then
    r <- search_page img phrase_to_search faces ;;
    match r with
    | None => Raise TypeError
    | Some (images, results) =>
        let images := make_thumbnails images in
        first <- subscript0 img_list ;;
        same <- dict_eq img first ;;
        if same : bool then
          Ok (Some (make_contact_sheet images results))
        else
          let temp_sheet := make_contact_sheet images results in
          cs <- local contact_sheet ;;
          Ok (Some (concatenate_images cs temp_sheet))
    end
  else Ok contact_sheet.

Fixpoint project_loop (img_list : list Doc) (phrase_to_search : string)
    (contact_sheet : option Image) (todo : list Doc)
  : result (option Image) :=
  match todo with
  | [] => Ok contact_sheet
  | img :: todo' =>
      cs <- project_step img_list phrase_to_search contact_sheet img ;;
      project_loop img_list phrase_to_search cs todo'
  end.

Definition do_project (img_list : list Doc) (phrase_to_search : string)
  : result Image :=
  let img_list := cvt_color img_list in
  img_list <- get_text img_list ;;
  contact_sheet <- project_loop img_list phrase_to_search None img_list ;;
  local contact_sheet.

(** The text OCR puts into a document. *)
Definition extracted_text (img : Doc) : string :=
  image_to_string (cvtColor (cv img)).

(** A document after [cvt_color] and [get_text] have filled it in. *)
Definition prepared (img : Doc) : Doc :=
  mkDoc (oid img) (title img) (image img) (cv img)
    (Some (cvtColor (cv img))) (Some (extracted_text img)).

End Pipeline.

(** ** Images as objects *)

(** Python images are objects: [paste] changes its receiver in place.  For
    the compositor the objects are kept in a heap of references, so that
    what a call leaves untouched can be stated. *)
Record Heap : Type := mkHeap {
  next_ref : nat;
  cell : nat -> option Image
}.

Definition deref (h : Heap) (r : nat) : option Image :=
  if (r <? next_ref h)%nat then cell h r else None.

Definition alloc (h : Heap) (img : Image) : Heap * nat :=
  (mkHeap (S (next_ref h))
     (fun r => if (r =? next_ref h)%nat then Some img else cell h r),
   next_ref h).

(** [dst.paste(src, xy)] on references. *)
Definition paste_obj (h : Heap) (dst src : nat) (xy : Z * Z) : option Heap :=
  match deref h dst, deref h src with
  | Some d, Some s =>
      Some (mkHeap (next_ref h)
              (fun r => if (r =? dst)%nat then Some (paste d s xy)
                        else cell h r))
  | _, _ => None
  end.

(** [concatenate_images] on references; [None] only for a reference that
    points nowhere. *)
Definition concatenate_images_obj (h : Heap) (img1 img2 : nat)
  : option (Heap * nat) :=
  match deref h img1, deref h img2 with
  | Some a, Some b =>
      let '(h1, result) :=
        alloc h (Image_new (width a) (height a + height b)) in
      match paste_obj h1 result img1 (0, 0) with
      | Some h2 =>
          match deref h2 img1 with
          | Some a' =>
              match paste_obj h2 result img2 (0, height a') with
              | Some h3 => Some (h3, result)
              | None => None
              end
          | None => None
          end
      | None => None
      end
  | _, _ => None
  end.

Definition empty_heap : Heap := mkHeap 0 (fun _ => None).

(** ** Notions of the specification *)

(** A contact sheet: a canvas 500 wide. *)
Definition is_contact_sheet (s : Image) : Prop :=
  width s = 500 /\ 0 <= height s.

(** [r] is [ceil(n/5)]. *)
Definition is_ceil_div5 (n r : Z) : Prop := 5 * (r - 1) < n <= 5 * r.

(** The grid cell of the [i]-th thumbnail, counted from 0: five per row,
    rows 100 apart below the 50-pixel banner. *)
Definition grid_position (i : nat) : Z * Z :=
  (100 * (Z.of_nat i mod 5), 50 + 100 * (Z.of_nat i / 5)).

Definition paste_at (sheet : Image) (p : (Z * Z) * Image) : Image :=
  paste sheet (snd p) (fst p).

(** [p] occurs in [s]. *)
Definition is_substring (p s : string) : Prop :=
  exists pre post : string, s = (pre ++ p ++ post)%string.

(** ** Stand-ins for the collaborators, used to exercise the statements *)

Definition stub_externals : Externals := {|
  Array := string;
  rasters_eq := fun _ _ => None;
  cvtColor := fun a => a;
  image_to_string := fun a => a;
  detectMultiScale := fun c _ _ _ _ _ =>
    match c with
    | face_cascade => [(0, 0, 2, 2)]
    | eye_cascade => [(1, 1, 1, 1)]
    end;
  thumbnail := fun img _ => img;
  FONT := fun _ _ _ => 0;
  blend := fun coverage ink old => if coverage =? 0 then old else ink
|}.

Definition dot (p : Pixel) : Image := mkImage 1 1 (fun _ _ => p).

(** A heap that holds two blank canvases of the size of contact sheets. *)
Definition two_sheets : Heap :=
  fst (alloc (fst (alloc empty_heap (Image_new 500 150))) (Image_new 500 250)).

(** The dictionary object [o], with a title and a one-pixel scan whose OCR
    reading is [scan]. *)
Definition page (o : nat) (name : string) (scan : string)
  : @Doc stub_externals :=
  @mkDoc stub_externals o name (dot white) scan None None.

(** ** Notions used for the further properties *)

(** A box whose width and height are not negative. *)
Definition box_nonneg (b : Box) : Prop :=
  let '(_, _, w, h) := b in 0 <= w /\ 0 <= h.

(** [im] is the part of [src] under the box [b], black where the box
    leaves [src]. *)
Definition is_crop_of (src : Image) (b : Box) (im : Image) : Prop :=
  let '(x, y, w, h) := b in
  width im = w /\ height im = h /\
  forall i j, 0 <= i < w -> 0 <= j < h ->
    getpixel im i j =
    Some (match getpixel src (x + i) (y + j) with
          | Some p => p
          | None => black
          end).

Section PipelineNotions.
Context {E : Externals}.

(** What [get_text] does to one document that has its ['gray'] entry. *)
Definition text_added (d d' : Doc) : Prop :=
  oid d' = oid d /\
  title d' = title d /\ image d' = image d /\ cv d' = cv d /\
  gray d' = gray d /\
  exists g, gray d = Some g /\ text d' = Some (image_to_string g).

(** The boxes [find_faces] returns for a document inside [do_project]. *)
Definition validated_faces (img : Doc) : list Box :=
  find_faces_on
    (get_bounding_boxes (cvtColor (cv img)) face_cascade (50, 50)
       (131 # 100)%Q 3)
    (get_bounding_boxes (cvtColor (cv img)) eye_cascade (10, 10)
       (118 # 100)%Q 0).

(** The document's text contains the phrase. *)
Definition matches (phrase : string) (img : Doc) : bool :=
  substring_in phrase (extracted_text img).

(** The height of the contact sheet of one document. *)
Definition page_height (img : Doc) : Z :=
  sheet_rows (Z.of_nat (List.length (validated_faces img))) * 100 + 50.

(** The heights of the sheets of the matching documents, added up. *)
Definition stacked_height (phrase : string) (l : list Doc) : Z :=
  fold_right
    (fun d acc => if matches phrase d then page_height d + acc else acc) 0 l.

End PipelineNotions.

(** * Properties *)

(** ** Order on boxes *)

Lemma box_compare_lt_iff (x y w h x' y' w' h' : Z) :
  box_compare (x, y, w, h) (x', y', w', h') = Lt <->
  x < x' \/ (x = x' /\ (y < y' \/ (y = y' /\ (w < w' \/ (w = w' /\ h < h'))))).
Proof.
  unfold box_compare.
  destruct (Z.compare_spec x x'); destruct (Z.compare_spec y y');
    destruct (Z.compare_spec w w'); destruct (Z.compare_spec h h');
    split; intros; try discriminate; try reflexivity; lia.
Qed.

Lemma box_compare_gt_iff (x y w h x' y' w' h' : Z) :
  box_compare (x, y, w, h) (x', y', w', h') = Gt <->
  x' < x \/ (x = x' /\ (y' < y \/ (y = y' /\ (w' < w \/ (w = w' /\ h' < h))))).
Proof.
  unfold box_compare.
  destruct (Z.compare_spec x x'); destruct (Z.compare_spec y y');
    destruct (Z.compare_spec w w'); destruct (Z.compare_spec h h');
    split; intros; try discriminate; try reflexivity; lia.
Qed.

Lemma box_eqb_eq (a b : Box) : box_eqb a b = true <-> a = b.
Proof.
  destruct a as [[[x y] w] h], b as [[[x' y'] w'] h']. unfold box_eqb.
  rewrite !andb_true_iff, !Z.eqb_eq. split.
  - intros [[[-> ->] ->] ->]. reflexivity.
  - intros H. inversion H. auto.
Qed.

Lemma box_lt_irrefl (a : Box) : ~ box_lt a a.
Proof.
  destruct a as [[[x y] w] h]. unfold box_lt.
  rewrite box_compare_lt_iff. lia.
Qed.

Lemma box_lt_trans (a b c : Box) : box_lt a b -> box_lt b c -> box_lt a c.
Proof.
  destruct a as [[[x y] w] h], b as [[[x' y'] w'] h'],
    c as [[[x'' y''] w''] h''].
  unfold box_lt. rewrite !box_compare_lt_iff. lia.
Qed.

Lemma box_lt_asym (a b : Box) : box_lt a b -> ~ box_lt b a.
Proof.
  intros H H'. exact (box_lt_irrefl a (box_lt_trans a b a H H')).
Qed.

Lemma box_le_cases (a b : Box) : box_le a b <-> box_lt a b \/ a = b.
Proof.
  destruct a as [[[x y] w] h], b as [[[x' y'] w'] h'].
  unfold box_le, box_lt. rewrite box_compare_lt_iff.
  split.
  - intros H.
    assert (G : ~ (x' < x \/ (x = x' /\ (y' < y \/ (y = y' /\
                   (w' < w \/ (w = w' /\ h' < h))))))).
    { intros G. apply H. apply box_compare_gt_iff. exact G. }
    assert (K : x < x' \/ (x = x' /\ (y < y' \/ (y = y' /\
                 (w < w' \/ (w = w' /\ (h < h' \/ h = h'))))))) by lia.
    destruct K as [K | [-> [K | [-> [K | [-> [K | ->]]]]]]];
      first [right; reflexivity | left; lia].
  - intros [H | H] G; apply box_compare_gt_iff in G.
    + lia.
    + inversion H. lia.
Qed.

Lemma box_ltb_lt (a b : Box) : box_ltb a b = true <-> box_lt a b.
Proof.
  unfold box_ltb, box_lt. destruct (box_compare a b); split; congruence.
Qed.

Lemma box_ltb_ge (a b : Box) : box_ltb a b = false -> box_le b a.
Proof.
  intros H. apply box_le_cases.
  destruct a as [[[x y] w] h], b as [[[x' y'] w'] h'].
  assert (N : ~ box_lt (x, y, w, h) (x', y', w', h')).
  { intros G. apply box_ltb_lt in G. congruence. }
  unfold box_lt in *. rewrite box_compare_lt_iff in *.
  assert (K : x' < x \/ (x' = x /\ (y' < y \/ (y' = y /\
               (w' < w \/ (w' = w /\ (h' < h \/ h' = h))))))) by lia.
  destruct K as [K | [-> [K | [-> [K | [-> [K | ->]]]]]]];
    first [right; reflexivity | left; lia].
Qed.

Lemma box_le_trans (a b c : Box) : box_le a b -> box_le b c -> box_le a c.
Proof.
  rewrite !box_le_cases. intros [H | ->] [G | ->]; auto.
  left. exact (box_lt_trans _ _ _ H G).
Qed.

(** ** The two loops of the face filter *)

Lemma eye_in_face_iff (x y w h ex ey ew eh : Z) :
  eye_in_face (x, y, w, h) (ex, ey, ew, eh) = true <->
  x <= ex <= x + w /\ y <= ey <= y + h.
Proof.
  unfold eye_in_face. rewrite !andb_true_iff, !Z.leb_le. tauto.
Qed.

Lemma validated_iff (faces eyes : list Box) (F : Box) :
  validated faces eyes F <->
  In F faces /\ existsb (eye_in_face F) eyes = true.
Proof.
  unfold validated. rewrite existsb_exists.
  destruct F as [[[x y] w] h].
  split; intros [HF [e [He Hin]]]; (split; [exact HF |]);
    exists e; (split; [exact He |]); destruct e as [[[ex ey] ew] eh].
  - apply eye_in_face_iff. exact Hin.
  - apply eye_in_face_iff in Hin. exact Hin.
Qed.

Lemma eyes_loop_app (face : Box) (eyes acc : list Box) :
  eyes_loop face eyes acc =
  acc ++ map (fun _ => face) (filter (eye_in_face face) eyes).
Proof.
  unfold eyes_loop. revert acc.
  induction eyes as [| e eyes IH]; intros acc; simpl.
  - now rewrite app_nil_r.
  - rewrite IH. destruct (eye_in_face face e); simpl.
    + now rewrite <- app_assoc.
    + reflexivity.
Qed.

Lemma faces_loop_acc (faces eyes acc : list Box) :
  fold_left (fun acc face => eyes_loop face eyes acc) faces acc =
  acc ++ flat_map
           (fun face => map (fun _ => face) (filter (eye_in_face face) eyes))
           faces.
Proof.
  revert acc. induction faces as [| f faces IH]; intros acc; simpl.
  - now rewrite app_nil_r.
  - rewrite IH, eyes_loop_app, <- app_assoc. reflexivity.
Qed.

Lemma In_faces_loop (faces eyes : list Box) (F : Box) :
  In F (faces_loop faces eyes) <->
  In F faces /\ existsb (eye_in_face F) eyes = true.
Proof.
  unfold faces_loop. rewrite faces_loop_acc. simpl.
  rewrite in_flat_map, existsb_exists. split.
  - intros [f [Hf HF]]. apply in_map_iff in HF.
    destruct HF as [e [-> He]]. apply filter_In in He.
    split; [exact Hf | exists e; exact He].
  - intros [HF [e [He Hin]]]. exists F. split; [exact HF |].
    apply in_map_iff. exists e. split; [reflexivity |].
    apply filter_In. split; assumption.
Qed.

(** ** Sorting *)

Lemma In_insert_box (b x : Box) (l : list Box) :
  In x (insert_box b l) <-> x = b \/ In x l.
Proof.
  induction l as [| a t IH]; simpl.
  - intuition congruence.
  - destruct (box_ltb b a); simpl; rewrite ?IH; intuition congruence.
Qed.

Lemma In_sorted (x : Box) (l : list Box) : In x (sorted l) <-> In x l.
Proof.
  induction l as [| a t IH]; simpl.
  - tauto.
  - rewrite In_insert_box, IH. intuition congruence.
Qed.

Lemma insert_box_sorted (b : Box) (l : list Box) :
  StronglySorted box_le l -> StronglySorted box_le (insert_box b l).
Proof.
  induction 1 as [| a t Ht IH Ha]; simpl.
  - constructor; constructor.
  - destruct (box_ltb b a) eqn:C.
    + apply box_ltb_lt in C.
      assert (Hba : box_le b a) by (apply box_le_cases; auto).
      constructor.
      * constructor; assumption.
      * constructor; [exact Hba |].
        apply Forall_forall. intros x Hx.
        rewrite Forall_forall in Ha.
        exact (box_le_trans _ _ _ Hba (Ha x Hx)).
    + apply box_ltb_ge in C. constructor; [exact IH |].
      apply Forall_forall. intros x Hx. apply In_insert_box in Hx.
      destruct Hx as [-> | Hx]; [exact C |].
      rewrite Forall_forall in Ha. exact (Ha x Hx).
Qed.

Lemma sorted_sorted (l : list Box) : StronglySorted box_le (sorted l).
Proof.
  induction l as [| a t IH]; simpl.
  - constructor.
  - apply insert_box_sorted. exact IH.
Qed.

(** ** Grouping *)

Lemma groupby_from_spec (l : list Box) :
  StronglySorted box_le l ->
  forall k, Forall (box_le k) l ->
    Forall (box_lt k) (groupby_from k l) /\
    StronglySorted box_lt (groupby_from k l) /\
    (forall x, In x (groupby_from k l) <-> In x l /\ x <> k).
Proof.
  induction 1 as [| a t Ht IH Ha]; intros k Hk; simpl.
  - split; [constructor | split; [constructor | tauto]].
  - inversion Hk as [| ? ? Hka Hkt]; subst.
    destruct (box_eqb a k) eqn:C.
    + apply box_eqb_eq in C. subst a.
      destruct (IH k Hkt) as (F1 & F2 & F3).
      split; [exact F1 | split; [exact F2 |]].
      intros x. rewrite F3. intuition congruence.
    + assert (Hne : a <> k).
      { intros ->. rewrite (proj2 (box_eqb_eq k k) eq_refl) in C.
        discriminate. }
      assert (Hlt : box_lt k a).
      { apply box_le_cases in Hka. destruct Hka; congruence. }
      destruct (IH a Ha) as (F1 & F2 & F3).
      rewrite Forall_forall in F1, Ha.
      split; [| split].
      * constructor; [exact Hlt |].
        apply Forall_forall. intros x Hx.
        exact (box_lt_trans _ _ _ Hlt (F1 x Hx)).
      * constructor; [exact F2 | apply Forall_forall; exact F1].
      * intros x. simpl. rewrite F3. split.
        -- intros [<- | [Hx Hxa]].
           ++ split; [left; reflexivity | exact Hne].
           ++ split; [right; exact Hx |].
              intros ->. apply Ha in Hx.
              apply box_le_cases in Hx. destruct Hx as [Hx | Hx].
              ** exact (box_lt_asym _ _ Hlt Hx).
              ** congruence.
        -- intros [[-> | Hx] Hn]; [left; reflexivity |].
           destruct (box_eqb x a) eqn:D.
           ++ apply box_eqb_eq in D. left. congruence.
           ++ right. split; [exact Hx |].
              intros ->. rewrite (proj2 (box_eqb_eq a a) eq_refl) in D.
              discriminate.
Qed.

Lemma groupby_keys_spec (l : list Box) :
  StronglySorted box_le l ->
  StronglySorted box_lt (groupby_keys l) /\
  (forall x, In x (groupby_keys l) <-> In x l).
Proof.
  intros H. destruct H as [| a t Ht Ha]; simpl.
  - split; [constructor | tauto].
  - destruct (groupby_from_spec t Ht a Ha) as (F1 & F2 & F3). split.
    + constructor; assumption.
    + intros x. rewrite F3. split.
      * tauto.
      * intros [-> | Hx]; [left; reflexivity |].
        destruct (box_eqb x a) eqn:D.
        -- apply box_eqb_eq in D. left. congruence.
        -- right. split; [exact Hx |].
           intros ->. rewrite (proj2 (box_eqb_eq a a) eq_refl) in D.
           discriminate.
Qed.

Lemma strict_sorted_NoDup (l : list Box) :
  StronglySorted box_lt l -> NoDup l.
Proof.
  induction 1 as [| a t Ht IH Ha]; constructor; [| exact IH].
  intros Hin. rewrite Forall_forall in Ha.
  exact (box_lt_irrefl a (Ha a Hin)).
Qed.

(** Two strictly increasing lists with the same elements are the same
    list. *)
Lemma strict_sorted_ext (l1 : list Box) :
  StronglySorted box_lt l1 ->
  forall l2, StronglySorted box_lt l2 ->
    (forall x, In x l1 <-> In x l2) -> l1 = l2.
Proof.
  induction 1 as [| a t Ht IH Ha]; intros l2 H2 Hext.
  - destruct l2 as [| b l2]; [reflexivity |].
    destruct (proj2 (Hext b) (or_introl eq_refl)).
  - destruct H2 as [| b u Hu Hb].
    + destruct (proj1 (Hext a) (or_introl eq_refl)).
    + rewrite Forall_forall in Ha, Hb.
      assert (Hab : a = b).
      { destruct (proj1 (Hext a) (or_introl eq_refl)) as [E1 | E1];
          [congruence |].
        destruct (proj2 (Hext b) (or_introl eq_refl)) as [E2 | E2];
          [congruence |].
        destruct (box_lt_asym _ _ (Ha b E2) (Hb a E1)). }
      subst b. f_equal. apply IH; [exact Hu |].
      intros x. split; intros Hx.
      * destruct (proj1 (Hext x) (or_intror Hx)) as [E1 | E1]; [| exact E1].
        subst x. destruct (box_lt_irrefl a (Ha a Hx)).
      * destruct (proj2 (Hext x) (or_intror Hx)) as [E1 | E1]; [| exact E1].
        subst x. destruct (box_lt_irrefl a (Hb a Hx)).
Qed.

Lemma find_faces_on_sorted (faces eyes : list Box) :
  StronglySorted box_lt (find_faces_on faces eyes).
Proof.
  unfold find_faces_on.
  exact (proj1 (groupby_keys_spec _ (sorted_sorted _))).
Qed.

Lemma In_find_faces_on (faces eyes : list Box) (F : Box) :
  In F (find_faces_on faces eyes) <->
  In F faces /\ existsb (eye_in_face F) eyes = true.
Proof.
  unfold find_faces_on.
  rewrite (proj2 (groupby_keys_spec _ (sorted_sorted _))).
  rewrite In_sorted. apply In_faces_loop.
Qed.

(** The output depends on the detector outputs only through the set of
    validated faces. *)
Lemma find_faces_on_cong (faces eyes faces' eyes' : list Box) :
  (forall F, In F faces /\ existsb (eye_in_face F) eyes = true <->
             In F faces' /\ existsb (eye_in_face F) eyes' = true) ->
  find_faces_on faces eyes = find_faces_on faces' eyes'.
Proof.
  intros H. apply strict_sorted_ext; try apply find_faces_on_sorted.
  intros F. rewrite !In_find_faces_on. apply H.
Qed.

Lemma existsb_perm {A : Type} (f : A -> bool) (l l' : list A) :
  Permutation l l' -> existsb f l = true -> existsb f l' = true.
Proof.
  intros P H. apply existsb_exists in H. destruct H as [a [Ha Hf]].
  apply existsb_exists. exists a. split; [| exact Hf].
  exact (Permutation_in a P Ha).
Qed.

Lemma eye_in_face_resize (F e : Box) (w h : Z) :
  eye_in_face F (resize_box w h e) = eye_in_face F e.
Proof.
  destruct F as [[[x y] fw] fh], e as [[[ex ey] ew] eh]. reflexivity.
Qed.

Lemma existsb_resize (F : Box) (w h : Z) (eyes : list Box) :
  existsb (eye_in_face F) (map (resize_box w h) eyes) =
  existsb (eye_in_face F) eyes.
Proof.
  induction eyes as [| e eyes IH]; simpl.
  - reflexivity.
  - now rewrite eye_in_face_resize, IH.
Qed.

(** ** The face filter: claims *)

(** C4: a face box F=(x,y,w,h) is in the output of the face filter if and
    only if it is one of the face boxes and the top-left corner (ex,ey) of at
    least one eye box satisfies x<=ex<=x+w and y<=ey<=y+h, both ends
    included; with no eye box the output is empty. *)
Theorem C4_retained_iff_eye_corner_in_closed_rectangle
    (faces eyes : list Box) (x y w h : Z) :
  (In (x, y, w, h) (find_faces_on faces eyes) <->
   In (x, y, w, h) faces /\
   exists ex ey ew eh, In (ex, ey, ew, eh) eyes /\
     x <= ex <= x + w /\ y <= ey <= y + h) /\
  find_faces_on faces [] = [] /\
  find_faces_on [(0, 0, 10, 10)] [(0, 0, 1, 1)] = [(0, 0, 10, 10)] /\
  find_faces_on [(0, 0, 10, 10)] [(10, 10, 1, 1)] = [(0, 0, 10, 10)] /\
  find_faces_on [(0, 0, 10, 10)] [(11, 10, 1, 1)] = [].
Proof.
  split; [| split; [| repeat split]].
  - rewrite In_find_faces_on, existsb_exists. split.
    + intros [HF [e [He Hin]]]. split; [exact HF |].
      destruct e as [[[ex ey] ew] eh]. exists ex, ey, ew, eh.
      split; [exact He |]. apply eye_in_face_iff in Hin. exact Hin.
    + intros [HF (ex & ey & ew & eh & He & Hin)]. split; [exact HF |].
      exists (ex, ey, ew, eh). split; [exact He |].
      apply eye_in_face_iff. exact Hin.
  - destruct (find_faces_on faces []) as [| b l] eqn:Q; [reflexivity |].
    assert (Hb : In b (find_faces_on faces [])) by (rewrite Q; left; reflexivity).
    apply In_find_faces_on in Hb. destruct Hb as [_ Hb]. discriminate.
Qed.

(** C7: the output of the face filter is strictly increasing in the
    lexicographic order on (x, y, w, h); a validated face box occurs in it
    exactly once and any other box not at all, however many eye boxes fall
    inside it; the order is the sorted one, not the one the detector gave. *)
Theorem C7_output_sorted_and_deduplicated (faces eyes : list Box) (F : Box) :
  StronglySorted box_lt (find_faces_on faces eyes) /\
  NoDup (find_faces_on faces eyes) /\
  (In F (find_faces_on faces eyes) <-> validated faces eyes F) /\
  count_occ box_eq_dec (find_faces_on faces eyes) F =
    (if existsb (box_eqb F) faces && existsb (eye_in_face F) eyes
     then 1%nat else 0%nat) /\
  find_faces_on [(0, 0, 10, 10)] [(1, 1, 2, 2); (5, 5, 2, 2)]
    = [(0, 0, 10, 10)] /\
  find_faces_on [(5, 5, 10, 10); (1, 1, 10, 10); (5, 5, 10, 10)]
                [(6, 6, 1, 1); (7, 7, 1, 1)]
    = [(1, 1, 10, 10); (5, 5, 10, 10)].
Proof.
  assert (S := find_faces_on_sorted faces eyes).
  assert (N := strict_sorted_NoDup _ S).
  split; [exact S | split; [exact N | split; [| split; [| split; reflexivity]]]].
  - rewrite In_find_faces_on. symmetry. apply validated_iff.
  - destruct (existsb (box_eqb F) faces && existsb (eye_in_face F) eyes)
      eqn:V.
    + apply NoDup_count_occ'; [exact N |].
      apply In_find_faces_on. apply andb_true_iff in V.
      destruct V as [V1 V2]. split; [| exact V2].
      apply existsb_exists in V1. destruct V1 as [b [Hb Hq]].
      apply box_eqb_eq in Hq. congruence.
    + apply count_occ_not_In. intros Hin.
      apply In_find_faces_on in Hin. destruct Hin as [H1 H2].
      rewrite H2, andb_true_r in V.
      assert (T : existsb (box_eqb F) faces = true).
      { apply existsb_exists. exists F. split; [exact H1 |].
        apply box_eqb_eq. reflexivity. }
      congruence.
Qed.

(** C9: supplying the face boxes and the eye boxes in another order changes
    neither the output list of the face filter nor, therefore, the set of
    boxes it retains. *)
Theorem C9_invariant_under_permutation
    (faces faces' eyes eyes' : list Box)
    (Hfaces : Permutation faces faces') (Heyes : Permutation eyes eyes') :
  find_faces_on faces eyes = find_faces_on faces' eyes' /\
  (forall F, In F (find_faces_on faces eyes) <->
             In F (find_faces_on faces' eyes')).
Proof.
  assert (Q : find_faces_on faces eyes = find_faces_on faces' eyes').
  { apply find_faces_on_cong. intros F. split; intros [H1 H2]; split.
    - exact (Permutation_in F Hfaces H1).
    - exact (existsb_perm _ _ _ Heyes H2).
    - exact (Permutation_in F (Permutation_sym Hfaces) H1).
    - exact (existsb_perm _ _ _ (Permutation_sym Heyes) H2). }
  split; [exact Q |]. intros F. rewrite Q. tauto.
Qed.

Lemma C9_witness :
  find_faces_on [(5, 5, 10, 10); (1, 1, 10, 10)] [(6, 6, 1, 1); (30, 30, 1, 1)]
  = find_faces_on [(1, 1, 10, 10); (5, 5, 10, 10)]
                  [(30, 30, 1, 1); (6, 6, 1, 1)].
Proof.
  exact (proj1 (C9_invariant_under_permutation
                  [(5, 5, 10, 10); (1, 1, 10, 10)]
                  [(1, 1, 10, 10); (5, 5, 10, 10)]
                  [(6, 6, 1, 1); (30, 30, 1, 1)]
                  [(30, 30, 1, 1); (6, 6, 1, 1)]
                  (perm_swap _ _ []) (perm_swap _ _ []))).
Defined.

(** C6, as the specification states it, fails: a face box of width and
    height 0 is in the output when an eye box's corner coincides with it. *)
Lemma C6_counterexample :
  ~ (forall (faces eyes : list Box) (x y w h : Z),
       In (x, y, w, h) faces -> w <= 0 \/ h <= 0 ->
       ~ In (x, y, w, h) (find_faces_on faces eyes)).
Proof.
  intros H.
  apply (H [(10, 10, 0, 0)] [(10, 10, 5, 5)] 10 10 0 0).
  - left. reflexivity.
  - lia.
  - left. reflexivity.
Qed.

(** C6, amended: the face filter has no rejection step of its own; every box
    takes the containment test, and the filter returns a list for every
    detector output.  A face box of negative width or negative height is
    never in the output; the width and height of an eye box are not looked
    at, so that an eye box with non-positive ones validates a face like any
    other; a face box of width or height 0 is retained when an eye box's
    corner lies on it. *)
Theorem C6_no_rejection_step_negative_face_never_retained
    (faces eyes : list Box) (x y w h ew eh : Z)
    (Hneg : w < 0 \/ h < 0) :
  ~ In (x, y, w, h) (find_faces_on faces eyes) /\
  find_faces_on faces (map (resize_box ew eh) eyes) = find_faces_on faces eyes /\
  find_faces_on [(0, 0, 10, 10)] [(5, 5, -1, 0)] = [(0, 0, 10, 10)] /\
  find_faces_on [(10, 10, 0, 0)] [(10, 10, 5, 5)] = [(10, 10, 0, 0)].
Proof.
  split; [| split; [| split; reflexivity]].
  - intros Hin. apply In_find_faces_on in Hin. destruct Hin as [_ Hin].
    apply existsb_exists in Hin. destruct Hin as [[[[ex ey] ew'] eh'] [_ Hin]].
    apply eye_in_face_iff in Hin. lia.
  - apply find_faces_on_cong. intros F. now rewrite existsb_resize.
Qed.

Lemma C6_witness :
  ~ In (3, 4, -2, 7) (find_faces_on [(3, 4, -2, 7)] [(3, 4, 1, 1)]) /\
  find_faces_on [(3, 4, -2, 7)] (map (resize_box 0 (-1)) [(3, 4, 1, 1)])
  = find_faces_on [(3, 4, -2, 7)] [(3, 4, 1, 1)].
Proof.
  destruct (C6_no_rejection_step_negative_face_never_retained
              [(3, 4, -2, 7)] [(3, 4, 1, 1)] 3 4 (-2) 7 0 (-1)
              (or_introl eq_refl)) as (H1 & H2 & _).
  split; [exact H1 | exact H2].
Defined.

(** ** Contact sheets *)

Lemma width_paste (dst src : Image) (xy : Z * Z) :
  width (paste dst src xy) = width dst.
Proof. destruct xy. reflexivity. Qed.

Lemma height_paste (dst src : Image) (xy : Z * Z) :
  height (paste dst src xy) = height dst.
Proof. destruct xy. reflexivity. Qed.

Lemma grid_position_succ (k : nat) :
  grid_position (S k) =
  if fst (grid_position k) + 100 =? 500
  then (0, snd (grid_position k) + 100)
  else (fst (grid_position k) + 100, snd (grid_position k)).
Proof.
  unfold grid_position. rewrite Nat2Z.inj_succ. cbn [fst snd].
  set (n := Z.of_nat k).
  assert (Hn : 0 <= n) by apply Nat2Z.is_nonneg.
  destruct (Z.eqb_spec (100 * (n mod 5) + 100) 500) as [Q | Q]; f_equal;
    Z.to_euclidean_division_equations; lia.
Qed.

Lemma sheet_rows_ceil (n : Z) :
  0 <= n ->
  if n =? 0 then sheet_rows n = 1 else is_ceil_div5 n (sheet_rows n).
Proof.
  intros Hn. unfold sheet_rows, is_ceil_div5.
  destruct (Z.eqb_spec n 0) as [-> | Hz]; [reflexivity |].
  destruct (Z.eqb_spec (n mod 5) 0); cbn [negb];
    Z.to_euclidean_division_equations; lia.
Qed.

Section SheetFacts.
Context {E : Externals}.

Lemma width_sheet_canvas (n : Z) (results : string) :
  width (sheet_canvas n results) = 500.
Proof. unfold sheet_canvas. destruct (n =? 0); reflexivity. Qed.

Lemma height_sheet_canvas (n : Z) (results : string) :
  height (sheet_canvas n results) = sheet_rows n * 100 + 50.
Proof. unfold sheet_canvas. destruct (n =? 0); reflexivity. Qed.

(** The loop of lines 176-182, started on the [k]-th cell, pastes the
    thumbnails on the cells that follow, in order. *)
Lemma paste_loop (img_list : list Image) :
  forall (sheet : Image) (k : nat),
    width sheet = 500 ->
    fold_left paste_step img_list
      (sheet, fst (grid_position k), snd (grid_position k)) =
    (fold_left paste_at
       (combine (map grid_position (seq k (List.length img_list))) img_list)
       sheet,
     fst (grid_position (k + List.length img_list)),
     snd (grid_position (k + List.length img_list))).
Proof.
  induction img_list as [| img rest IH]; intros sheet k Hw.
  - simpl. now rewrite Nat.add_0_r.
  - cbn [fold_left List.length seq map combine].
    unfold paste_step at 2. rewrite width_paste, Hw.
    replace (k + S (List.length rest))%nat
      with (S k + List.length rest)%nat by lia.
    assert (Q : (if fst (grid_position k) + 100 =? 500
                 then (paste sheet img
                         (fst (grid_position k), snd (grid_position k)),
                       0, snd (grid_position k) + 100)
                 else (paste sheet img
                         (fst (grid_position k), snd (grid_position k)),
                       fst (grid_position k) + 100, snd (grid_position k))) =
                (paste sheet img (grid_position k),
                 fst (grid_position (S k)), snd (grid_position (S k)))).
    { rewrite (grid_position_succ k).
      rewrite <- (surjective_pairing (grid_position k)).
      destruct (fst (grid_position k) + 100 =? 500); reflexivity. }
    rewrite Q. apply IH. unfold paste_at. cbn [fst snd]. rewrite width_paste. exact Hw.
Qed.

Lemma make_contact_sheet_pastes (img_list : list Image) (results : string) :
  make_contact_sheet img_list results =
  fold_left paste_at
    (combine (map grid_position (seq 0 (List.length img_list))) img_list)
    (sheet_canvas (Z.of_nat (List.length img_list)) results).
Proof.
  unfold make_contact_sheet.
  pose proof (paste_loop img_list
                (sheet_canvas (Z.of_nat (List.length img_list)) results)
                0 (width_sheet_canvas _ _)) as P.
  change (fst (grid_position 0)) with 0 in P.
  change (snd (grid_position 0)) with 50 in P.
  rewrite P. reflexivity.
Qed.

Lemma size_paste_all (ps : list ((Z * Z) * Image)) :
  forall sheet,
    width (fold_left paste_at ps sheet) = width sheet /\
    height (fold_left paste_at ps sheet) = height sheet.
Proof.
  induction ps as [| p ps IH]; intros sheet; simpl.
  - split; reflexivity.
  - destruct (IH (paste_at sheet p)) as [W H]. rewrite W, H.
    unfold paste_at. now rewrite width_paste, height_paste.
Qed.

Lemma size_make_contact_sheet (img_list : list Image) (results : string) :
  width (make_contact_sheet img_list results) = 500 /\
  height (make_contact_sheet img_list results) =
    sheet_rows (Z.of_nat (List.length img_list)) * 100 + 50.
Proof.
  rewrite make_contact_sheet_pastes.
  destruct (size_paste_all
              (combine (map grid_position (seq 0 (List.length img_list)))
                 img_list)
              (sheet_canvas (Z.of_nat (List.length img_list)) results))
    as [W H].
  rewrite W, H, width_sheet_canvas, height_sheet_canvas. split; reflexivity.
Qed.

(** C5: a contact sheet is 500 wide and [rows*100 + 50] high, where [rows]
    is [ceil(n/5)] for [n] thumbnails, and 1 when there is none; the height
    is 150 for no thumbnail, 150 for five and 250 for six. *)
Theorem C5_contact_sheet_size
    (img_list : list Image) (results : string) (t1 t2 t3 t4 t5 t6 : Image) :
  width (make_contact_sheet img_list results) = 500 /\
  (exists rows,
     height (make_contact_sheet img_list results) = rows * 100 + 50 /\
     if Z.of_nat (List.length img_list) =? 0 then rows = 1
     else is_ceil_div5 (Z.of_nat (List.length img_list)) rows) /\
  height (make_contact_sheet [] results) = 150 /\
  height (make_contact_sheet [t1; t2; t3; t4; t5] results) = 150 /\
  height (make_contact_sheet [t1; t2; t3; t4; t5; t6] results) = 250.
Proof.
  split; [apply size_make_contact_sheet |].
  split.
  - exists (sheet_rows (Z.of_nat (List.length img_list))).
    split; [apply size_make_contact_sheet |].
    apply sheet_rows_ceil. apply Nat2Z.is_nonneg.
  - repeat split;
      match goal with
      | |- height (make_contact_sheet ?l ?r) = _ =>
          rewrite (proj2 (size_make_contact_sheet l r)); reflexivity
      end.
Qed.

(** C8: [make_contact_sheet] pastes the thumbnails in order, the [i]-th
    (from 0) at [(100*(i mod 5), 50 + 100*(i/5))]: row-major, left to right,
    top to bottom, five per row.  The cursor starts at (0,50) and stands on
    the next cell after each paste.  With seven thumbnails, the first five go
    to y=50 at x=0,100,200,300,400 and the last two to y=150 at x=0,100. *)
Theorem C8_row_major_grid_placement
    (img_list : list Image) (results : string)
    (t0 t1 t2 t3 t4 t5 t6 : Image) :
  make_contact_sheet img_list results =
    fold_left paste_at
      (combine (map grid_position (seq 0 (List.length img_list))) img_list)
      (sheet_canvas (Z.of_nat (List.length img_list)) results) /\
  (let '(_, x, y) :=
     fold_left paste_step img_list
       (sheet_canvas (Z.of_nat (List.length img_list)) results, 0, 50) in
   (x, y) = grid_position (List.length img_list)) /\
  map grid_position (seq 0 7) =
    [(0, 50); (100, 50); (200, 50); (300, 50); (400, 50);
     (0, 150); (100, 150)] /\
  make_contact_sheet [t0; t1; t2; t3; t4; t5; t6] results =
    paste (paste (paste (paste (paste (paste (paste
      (sheet_canvas 7 results)
      t0 (0, 50)) t1 (100, 50)) t2 (200, 50)) t3 (300, 50)) t4 (400, 50))
      t5 (0, 150)) t6 (100, 150).
Proof.
  split; [apply make_contact_sheet_pastes |].
  split; [| split; [reflexivity |]].
  - pose proof (paste_loop img_list
                  (sheet_canvas (Z.of_nat (List.length img_list)) results)
                  0 (width_sheet_canvas _ _)) as P.
    change (fst (grid_position 0)) with 0 in P.
    change (snd (grid_position 0)) with 50 in P.
    rewrite P. cbn [Nat.add]. symmetry. apply surjective_pairing.
  - rewrite make_contact_sheet_pastes. reflexivity.
Qed.

End SheetFacts.

(** ** Compositor *)

Lemma getpixel_inside (img : Image) (x y : Z) :
  0 <= x < width img -> 0 <= y < height img ->
  getpixel img x y = Some (pix img x y).
Proof.
  intros Hx Hy. unfold getpixel, in_bounds.
  destruct (Z.leb_spec 0 x); [| lia].
  destruct (Z.ltb_spec x (width img)); [| lia].
  destruct (Z.leb_spec 0 y); [| lia].
  destruct (Z.ltb_spec y (height img)); [| lia].
  reflexivity.
Qed.

Lemma getpixel_outside (img : Image) (x y : Z) :
  x < 0 \/ width img <= x \/ y < 0 \/ height img <= y ->
  getpixel img x y = None.
Proof.
  intros H. unfold getpixel, in_bounds.
  destruct (Z.leb_spec 0 x); destruct (Z.ltb_spec x (width img));
    destruct (Z.leb_spec 0 y); destruct (Z.ltb_spec y (height img));
    try reflexivity; lia.
Qed.

Lemma concatenate_images_top (A B : Image) (x y : Z) :
  0 <= height B -> 0 <= x < width A -> 0 <= y < height A ->
  getpixel (concatenate_images A B) x y = getpixel A x y.
Proof.
  intros HB Hx Hy.
  rewrite (getpixel_inside A x y Hx Hy).
  rewrite getpixel_inside by (cbn [concatenate_images width height paste Image_new]; lia).
  unfold concatenate_images. cbn [pix paste Image_new].
  rewrite (getpixel_outside B) by lia.
  rewrite !Z.sub_0_r. rewrite (getpixel_inside A x y Hx Hy). reflexivity.
Qed.

Lemma concatenate_images_bottom (A B : Image) (x y : Z) :
  0 <= height A -> 0 <= x < Z.min (width A) (width B) -> 0 <= y < height B ->
  getpixel (concatenate_images A B) x (height A + y) = getpixel B x y.
Proof.
  intros HA Hx Hy.
  rewrite (getpixel_inside B x y) by lia.
  rewrite getpixel_inside by (cbn [concatenate_images width height paste Image_new]; lia).
  unfold concatenate_images. cbn [pix paste Image_new].
  rewrite Z.sub_0_r. replace (height A + y - height A) with y by lia.
  rewrite (getpixel_inside B x y) by lia. reflexivity.
Qed.

Lemma concatenate_images_pad (A B : Image) (x y : Z) :
  0 <= height A -> 0 <= x -> width B <= x < width A -> 0 <= y < height B ->
  getpixel (concatenate_images A B) x (height A + y) = Some black.
Proof.
  intros HA Hx0 Hx Hy.
  rewrite getpixel_inside by (cbn [concatenate_images width height paste Image_new]; lia).
  unfold concatenate_images. cbn [pix paste Image_new].
  rewrite (getpixel_outside B) by lia.
  rewrite (getpixel_outside A) by lia. reflexivity.
Qed.

Lemma deref_alloc_old (h : Heap) (img : Image) (r : nat) :
  r <> next_ref h -> deref (fst (alloc h img)) r = deref h r.
Proof.
  intros Hr. unfold deref, alloc. cbn [fst next_ref cell].
  destruct (Nat.eqb_spec r (next_ref h)) as [Q | _]; [contradiction |].
  destruct (Nat.ltb_spec r (S (next_ref h)));
    destruct (Nat.ltb_spec r (next_ref h)); try reflexivity; lia.
Qed.

Lemma deref_some_lt (h : Heap) (r : nat) (img : Image) :
  deref h r = Some img -> (r < next_ref h)%nat.
Proof.
  unfold deref. destruct (Nat.ltb_spec r (next_ref h)); [auto | discriminate].
Qed.

(** [concatenate_images] on objects, for images of any widths: the canvas
    is a fresh object with the width of the first image, no other object is
    changed, and the second image is cut or padded to the canvas. *)
Lemma concatenate_images_obj_spec
    (h : Heap) (img1 img2 : nat) (A B : Image)
    (HA : deref h img1 = Some A) (HB : deref h img2 = Some B)
    (HhA : 0 <= height A) (HhB : 0 <= height B) :
  exists h' result,
    concatenate_images_obj h img1 img2 = Some (h', result) /\
    deref h result = None /\
    deref h' result = Some (concatenate_images A B) /\
    (forall r, r <> result -> deref h' r = deref h r) /\
    deref h' img1 = Some A /\ deref h' img2 = Some B /\
    width (concatenate_images A B) = width A /\
    height (concatenate_images A B) = height A + height B /\
    (width (concatenate_images A B) = Z.max (width A) (width B) <->
     width B <= width A) /\
    (forall x y, 0 <= x < width A -> 0 <= y < height A ->
       getpixel (concatenate_images A B) x y = getpixel A x y) /\
    (forall x y, 0 <= x < Z.min (width A) (width B) -> 0 <= y < height B ->
       getpixel (concatenate_images A B) x (height A + y) = getpixel B x y) /\
    (forall x y, 0 <= x -> width B <= x < width A -> 0 <= y < height B ->
       getpixel (concatenate_images A B) x (height A + y) = Some black).
Proof.
  pose proof (deref_some_lt _ _ _ HA) as L1.
  pose proof (deref_some_lt _ _ _ HB) as L2.
  set (h1 := fst (alloc h (Image_new (width A) (height A + height B)))).
  assert (D1 : deref h1 img1 = Some A).
  { unfold h1. rewrite deref_alloc_old by lia. exact HA. }
  assert (D2 : deref h1 img2 = Some B).
  { unfold h1. rewrite deref_alloc_old by lia. exact HB. }
  assert (D0 : deref h1 (next_ref h) =
               Some (Image_new (width A) (height A + height B))).
  { unfold h1, deref, alloc. cbn [fst next_ref cell].
    rewrite Nat.eqb_refl.
    destruct (Nat.ltb_spec (next_ref h) (S (next_ref h))); [reflexivity | lia]. }
  set (h2 := mkHeap (next_ref h1)
               (fun r => if (r =? next_ref h)%nat
                         then Some (paste (Image_new (width A)
                                             (height A + height B)) A (0, 0))
                         else cell h1 r)).
  set (h3 := mkHeap (next_ref h2)
               (fun r => if (r =? next_ref h)%nat
                         then Some (concatenate_images A B)
                         else cell h2 r)).
  assert (E2 : deref h2 img1 = Some A).
  { unfold deref, h2. cbn [next_ref cell].
    destruct (Nat.eqb_spec img1 (next_ref h)); [lia |]. exact D1. }
  assert (E2' : deref h2 img2 = Some B).
  { unfold deref, h2. cbn [next_ref cell].
    destruct (Nat.eqb_spec img2 (next_ref h)); [lia |]. exact D2. }
  assert (E0 : deref h2 (next_ref h) =
               Some (paste (Image_new (width A) (height A + height B))
                       A (0, 0))).
  { unfold deref, h2, h1, alloc. cbn [fst next_ref cell].
    rewrite Nat.eqb_refl.
    destruct (Nat.ltb_spec (next_ref h) (S (next_ref h))); [reflexivity | lia]. }
  exists h3, (next_ref h).
  split.
  { unfold concatenate_images_obj. rewrite HA, HB.
    change (alloc h (Image_new (width A) (height A + height B)))
      with (h1, next_ref h).
    cbv beta iota.
    assert (P1 : paste_obj h1 (next_ref h) img1 (0, 0) = Some h2).
    { unfold paste_obj. rewrite D0, D1. reflexivity. }
    rewrite P1, E2.
    assert (P2 : paste_obj h2 (next_ref h) img2 (0, height A) = Some h3).
    { unfold paste_obj. rewrite E0, E2'. reflexivity. }
    rewrite P2. reflexivity. }
  split.
  { unfold deref. destruct (Nat.ltb_spec (next_ref h) (next_ref h));
      [lia | reflexivity]. }
  assert (K : forall r, r <> next_ref h -> deref h3 r = deref h r).
  { intros r Hr. unfold deref, h3, h2, h1, alloc. cbn [fst next_ref cell].
    destruct (Nat.eqb_spec r (next_ref h)); [contradiction |].
    destruct (Nat.ltb_spec r (S (next_ref h)));
      destruct (Nat.ltb_spec r (next_ref h)); try reflexivity; lia. }
  split.
  { unfold deref, h3, h2, h1, alloc. cbn [fst next_ref cell].
    rewrite Nat.eqb_refl.
    destruct (Nat.ltb_spec (next_ref h) (S (next_ref h))); [reflexivity | lia]. }
  split; [exact K |].
  split; [rewrite K by lia; exact HA |].
  split; [rewrite K by lia; exact HB |].
  split; [reflexivity |].
  split; [reflexivity |].
  split; [cbn [concatenate_images width paste Image_new]; lia |].
  split; [intros x y; apply concatenate_images_top; exact HhB |].
  split; [intros x y; apply concatenate_images_bottom; exact HhA |].
  intros x y. apply concatenate_images_pad; exact HhA.
Qed.

(** The sheets the program builds are contact sheets, and so are their
    stacks. *)
Lemma concatenate_images_is_contact_sheet (A B : Image) :
  is_contact_sheet A -> is_contact_sheet B ->
  is_contact_sheet (concatenate_images A B).
Proof.
  intros [WA HA] [WB HB]. split.
  - exact WA.
  - cbn [concatenate_images height paste Image_new]. lia.
Qed.

(** C3: for two contact sheets A and B, [concatenate_images] produces a new
    canvas of width max(width_A, width_B) and height height_A + height_B,
    with A pasted at (0,0) and B at (0, height_A): the region
    [0,0,width,height_A] of the result equals A exactly and the region below
    equals B exactly; the canvas is a fresh object and neither input is
    changed. *)
Theorem C3_stack_of_contact_sheets
    (h : Heap) (img1 img2 : nat) (A B : Image)
    (HA : deref h img1 = Some A) (HB : deref h img2 = Some B)
    (HsA : is_contact_sheet A) (HsB : is_contact_sheet B) :
  exists h' result,
    concatenate_images_obj h img1 img2 = Some (h', result) /\
    deref h result = None /\
    deref h' result = Some (concatenate_images A B) /\
    (forall r, r <> result -> deref h' r = deref h r) /\
    deref h' img1 = Some A /\ deref h' img2 = Some B /\
    width (concatenate_images A B) = Z.max (width A) (width B) /\
    height (concatenate_images A B) = height A + height B /\
    (forall x y,
       0 <= x < width (concatenate_images A B) -> 0 <= y < height A ->
       getpixel (concatenate_images A B) x y = getpixel A x y) /\
    (forall x y,
       0 <= x < width (concatenate_images A B) -> 0 <= y < height B ->
       getpixel (concatenate_images A B) x (height A + y) = getpixel B x y) /\
    is_contact_sheet (concatenate_images A B).
Proof.
  destruct HsA as [WA HhA]. destruct HsB as [WB HhB].
  destruct (concatenate_images_obj_spec h img1 img2 A B HA HB HhA HhB)
    as (h' & r & H1 & H2 & H3 & H4 & H5 & H6 & H7 & H8 & _ & H10 & H11 & _).
  exists h', r.
  split; [exact H1 |]. split; [exact H2 |]. split; [exact H3 |].
  split; [exact H4 |]. split; [exact H5 |]. split; [exact H6 |].
  split; [rewrite H7; lia |]. split; [exact H8 |].
  split; [intros x y Hx Hy; apply H10; [rewrite H7 in Hx; exact Hx | exact Hy] |].
  split.
  - intros x y Hx Hy. apply H11; [rewrite H7 in Hx; lia | exact Hy].
  - apply concatenate_images_is_contact_sheet; split; assumption.
Qed.

(** Two contact sheets without thumbnails, as objects in a heap. *)
Lemma C3_witness :
  exists h' result,
    concatenate_images_obj two_sheets 0%nat 1%nat = Some (h', result) /\
    deref h' result =
      Some (concatenate_images (Image_new 500 150) (Image_new 500 250)) /\
    deref h' 0%nat = Some (Image_new 500 150) /\
    deref h' 1%nat = Some (Image_new 500 250).
Proof.
  destruct (C3_stack_of_contact_sheets
              two_sheets 0%nat 1%nat (Image_new 500 150) (Image_new 500 250)
              eq_refl eq_refl
              ltac:(split; cbn; lia) ltac:(split; cbn; lia))
    as (h' & r & H1 & _ & H3 & _ & H5 & H6 & _).
  exists h', r. repeat split; assumption.
Defined.

(** ** Phrase search *)

Lemma prefix_iff (p s : string) :
  prefix p s = true <-> exists post, s = (p ++ post)%string.
Proof.
  revert s. induction p as [| a p IH]; intros s.
  - split; [intros _; exists s; reflexivity |].
    intros _. destruct s; reflexivity.
  - destruct s as [| b s]; simpl.
    + split; [discriminate | intros [post H]; discriminate].
    + destruct (ascii_dec a b) as [-> | Hne].
      * rewrite IH. split; intros [post H]; exists post.
        -- now rewrite H.
        -- now inversion H.
      * split; [discriminate |]. intros [post H]. inversion H.
        congruence.
Qed.

Lemma substring_in_unfold (p s : string) :
  substring_in p s =
  if prefix p s then true
  else match s with
       | EmptyString => false
       | String _ s' => substring_in p s'
       end.
Proof. destruct s; reflexivity. Qed.

Lemma substring_in_iff (p s : string) :
  substring_in p s = true <-> is_substring p s.
Proof.
  unfold is_substring.
  induction s as [| c s IH]; rewrite substring_in_unfold.
  - destruct (prefix p "") eqn:P.
    + split; [intros _ | reflexivity].
      apply prefix_iff in P. destruct P as [post P].
      exists ""%string, post. exact P.
    + split; [discriminate |]. intros (pre & post & H).
      destruct pre as [| c pre]; [| discriminate].
      assert (T : prefix p "" = true)
        by (apply prefix_iff; exists post; exact H).
      congruence.
  - destruct (prefix p (String c s)) eqn:P.
    + split; [intros _ | reflexivity].
      apply prefix_iff in P. destruct P as [post P].
      exists ""%string, post. exact P.
    + rewrite IH. split.
      * intros (pre & post & H). exists (String c pre), post.
        simpl. now rewrite H.
      * intros (pre & post & H). destruct pre as [| c' pre].
        -- assert (T : prefix p (String c s) = true)
             by (apply prefix_iff; exists post; exact H).
           congruence.
        -- exists pre, post. simpl in H. now inversion H.
Qed.

Lemma substring_in_false_iff (p s : string) :
  substring_in p s = false <-> ~ is_substring p s.
Proof.
  rewrite <- substring_in_iff. destruct (substring_in p s); split;
    congruence.
Qed.

Section PipelineFacts.
Context {E : Externals}.

(** C10: [phrase_in] answers [True] exactly when the phrase occurs in the
    document's text as it stands, character for character, and [False]
    exactly when it does not; a document whose text is "chris is here" does
    not match "Chris". *)
Theorem C10_phrase_in_is_exact_substring (img : Doc) (search_phrase : string) :
  (phrase_in img search_phrase = Ok true <->
   exists t, text img = Some t /\ is_substring search_phrase t) /\
  (phrase_in img search_phrase = Ok false <->
   exists t, text img = Some t /\ ~ is_substring search_phrase t) /\
  phrase_in (mkDoc (oid img) (title img) (image img) (cv img) (gray img)
               (Some "chris is here"%string)) "Chris" = Ok false /\
  phrase_in (mkDoc (oid img) (title img) (image img) (cv img) (gray img)
               (Some "Is Chris here?"%string)) "Chris" = Ok true.
Proof.
  unfold phrase_in.
  split; [| split; [| split; reflexivity]].
  - destruct (text img) as [t |]; simpl.
    + destruct (substring_in search_phrase t) eqn:S.
      * apply substring_in_iff in S. split; [| reflexivity].
        intros _. exists t. split; [reflexivity | exact S].
      * apply substring_in_false_iff in S. split; [discriminate |].
        intros (t' & Q & H). inversion Q; subst. contradiction.
    + split; [discriminate |]. intros (t' & Q & _). discriminate.
  - destruct (text img) as [t |]; simpl.
    + destruct (substring_in search_phrase t) eqn:S.
      * apply substring_in_iff in S. split; [discriminate |].
        intros (t' & Q & H). inversion Q; subst. contradiction.
      * apply substring_in_false_iff in S. split; [| reflexivity].
        intros _. exists t. split; [reflexivity | exact S].
    + split; [discriminate |]. intros (t' & Q & _). discriminate.
Qed.

(** ** Orchestrator *)

Lemma get_text_cvt_color (img_list : list Doc) :
  get_text (cvt_color img_list) = Ok (map prepared img_list).
Proof.
  unfold get_text, cvt_color.
  induction img_list as [| d l IH]; [reflexivity |].
  cbn [map mapM]. rewrite IH. reflexivity.
Qed.

Lemma find_faces_on_nonneg (faces eyes : list Box) (x y w h : Z) :
  In (x, y, w, h) (find_faces_on faces eyes) -> 0 <= w /\ 0 <= h.
Proof.
  intros Hin. apply In_find_faces_on in Hin. destruct Hin as [_ Hin].
  apply existsb_exists in Hin. destruct Hin as [[[[ex ey] ew] eh] [_ Hin]].
  apply eye_in_face_iff in Hin. lia.
Qed.

Lemma get_faces_ok (img : Doc) (boxes : list Box) :
  (forall x y w h, In (x, y, w, h) boxes -> 0 <= w /\ 0 <= h) ->
  exists images, get_faces img boxes = Ok images.
Proof.
  unfold get_faces. induction boxes as [| b boxes IH]; intros H.
  - exists []. reflexivity.
  - destruct IH as [images IH].
    { intros x y w h Hin. apply (H x y w h). right. exact Hin. }
    destruct b as [[[x y] w] h].
    destruct (H x y w h (or_introl eq_refl)) as [Hw Hh].
    cbn [mapM]. rewrite IH. unfold crop.
    destruct (Z.ltb_spec (x + w) x); [lia |].
    destruct (Z.ltb_spec (y + h) y); [lia |].
    cbn [orb bind]. eexists. reflexivity.
Qed.

Lemma project_step_skip (img_list : list Doc) (phrase : string)
    (contact_sheet : option Image) (d : Doc) :
  substring_in phrase (extracted_text d) = false ->
  project_step img_list phrase contact_sheet (prepared d) = Ok contact_sheet.
Proof.
  intros H. unfold project_step, find_faces, phrase_in, prepared.
  cbn [gray text item bind]. rewrite H. reflexivity.
Qed.

Lemma project_loop_skip (img_list : list Doc) (phrase : string)
    (todo : list Doc) :
  (forall d, In d todo -> substring_in phrase (extracted_text d) = false) ->
  project_loop img_list phrase None (map prepared todo) = Ok None.
Proof.
  induction todo as [| d todo IH]; intros H; [reflexivity |].
  cbn [map project_loop].
  rewrite project_step_skip by (apply H; left; reflexivity).
  cbn [bind]. apply IH. intros d' Hd'. apply H. right. exact Hd'.
Qed.

(** C1: when no document's text contains the phrase, and so when there is
    no document at all, [do_project] does not return a sheet: the variable
    [contact_sheet] is read without ever having been assigned. *)
Theorem C1_no_match_reads_unassigned_sheet
    (img_list : list Doc) (phrase_to_search : string)
    (Hnone : forall d, In d img_list ->
               ~ is_substring phrase_to_search (extracted_text d)) :
  do_project img_list phrase_to_search = Raise UnboundLocalError /\
  do_project [] phrase_to_search = Raise UnboundLocalError.
Proof.
  split; [| reflexivity].
  unfold do_project. rewrite get_text_cvt_color. cbn [bind].
  rewrite project_loop_skip; [reflexivity |].
  intros d Hd. apply substring_in_false_iff. exact (Hnone d Hd).
Qed.

End PipelineFacts.

Lemma C1_witness :
  do_project [page 0 "a.png" "chris is here"] "Chris"
  = Raise UnboundLocalError.
Proof.
  refine (proj1 (C1_no_match_reads_unassigned_sheet
                   [page 0 "a.png" "chris is here"] "Chris" _)).
  intros d [<- | []]. apply substring_in_false_iff. reflexivity.
Defined.

(** * Further properties of the code *)

(** ** The face filter *)

Lemma faces_loop_flat_map (faces eyes : list Box) :
  faces_loop faces eyes =
  flat_map (fun face => map (fun _ => face) (filter (eye_in_face face) eyes))
    faces.
Proof. unfold faces_loop. now rewrite faces_loop_acc. Qed.

Lemma count_occ_copies (face F : Box) (l : list Box) :
  count_occ box_eq_dec (map (fun _ => face) l) F =
  if box_eq_dec face F then List.length l else 0%nat.
Proof.
  induction l as [| a l IH]; simpl.
  - destruct (box_eq_dec face F); reflexivity.
  - rewrite IH. destruct (box_eq_dec face F); reflexivity.
Qed.

(** Lines 64-71 append a face box once for every eye box whose corner it
    contains: a box occurs in [face_list] as many times as it occurs among
    the face boxes, times the number of eye boxes inside it. *)
Theorem face_list_multiplicity (faces eyes : list Box) (F : Box) :
  count_occ box_eq_dec (faces_loop faces eyes) F =
  (count_occ box_eq_dec faces F *
   List.length (filter (eye_in_face F) eyes))%nat.
Proof.
  rewrite faces_loop_flat_map.
  induction faces as [| f faces IH]; [reflexivity |].
  cbn [flat_map count_occ]. rewrite count_occ_app, IH, count_occ_copies.
  destruct (box_eq_dec f F) as [-> | Hne]; lia.
Qed.

(** The filter returns only boxes it was given as face boxes, and never
    more of them than it was given. *)
Theorem find_faces_on_bounded (faces eyes : list Box) :
  incl (find_faces_on faces eyes) faces /\
  (List.length (find_faces_on faces eyes) <= List.length faces)%nat.
Proof.
  assert (I : incl (find_faces_on faces eyes) faces).
  { intros F HF. apply In_find_faces_on in HF. tauto. }
  split; [exact I |].
  apply NoDup_incl_length; [| exact I].
  apply strict_sorted_NoDup. apply find_faces_on_sorted.
Qed.

(** Filtering the filter's own output against the same eye boxes changes
    nothing. *)
Theorem find_faces_on_idempotent (faces eyes : list Box) :
  find_faces_on (find_faces_on faces eyes) eyes = find_faces_on faces eyes.
Proof.
  apply find_faces_on_cong. intros F. rewrite In_find_faces_on. tauto.
Qed.

(** More detections never lose a face: with further face boxes and further
    eye boxes, every face retained before is still retained. *)
Theorem find_faces_on_monotone (faces faces' eyes eyes' : list Box)
    (Hfaces : incl faces faces') (Heyes : incl eyes eyes') :
  incl (find_faces_on faces eyes) (find_faces_on faces' eyes').
Proof.
  intros F HF. apply In_find_faces_on in HF. destruct HF as [H1 H2].
  apply In_find_faces_on. split; [exact (Hfaces F H1) |].
  apply existsb_exists in H2. destruct H2 as [e [He Hin]].
  apply existsb_exists. exists e. split; [exact (Heyes e He) | exact Hin].
Qed.

Lemma find_faces_on_monotone_witness :
  incl (find_faces_on [(0, 0, 10, 10)] [(1, 1, 2, 2)])
       (find_faces_on [(20, 20, 5, 5); (0, 0, 10, 10)]
                      [(1, 1, 2, 2); (21, 21, 1, 1)]).
Proof.
  apply (find_faces_on_monotone
           [(0, 0, 10, 10)] [(20, 20, 5, 5); (0, 0, 10, 10)]
           [(1, 1, 2, 2)] [(1, 1, 2, 2); (21, 21, 1, 1)]).
  - intros b [<- | []]. right. left. reflexivity.
  - intros b [<- | []]. left. reflexivity.
Defined.

(** ** Crops, text and search *)

Section StageFacts.
Context {E : Externals}.

(** [get_faces] returns one crop per box, in the order of the boxes; the
    crop of the box (x, y, w, h) is w wide and h high and shows the
    document's colour image from (x, y) on. *)
Theorem get_faces_one_crop_per_box (img : Doc) (boxes : list Box)
    (Hboxes : Forall box_nonneg boxes) :
  exists images,
    get_faces img boxes = Ok images /\
    Forall2 (is_crop_of (image img)) boxes images.
Proof.
  unfold get_faces. induction Hboxes as [| b boxes Hb Hbs IH].
  - exists []. split; [reflexivity | constructor].
  - destruct IH as (images & Q & F).
    destruct b as [[[x y] w] h]. destruct Hb as [Hw Hh].
    cbn [mapM]. rewrite Q. unfold crop.
    destruct (Z.ltb_spec (x + w) x); [lia |].
    destruct (Z.ltb_spec (y + h) y); [lia |].
    cbn [orb bind]. eexists. split; [reflexivity |].
    constructor; [| exact F].
    unfold is_crop_of. cbn [width height].
    split; [lia | split; [lia |]].
    intros i j Hi Hj. rewrite getpixel_inside by (cbn [width height]; lia).
    cbn [pix]. rewrite (Z.add_comm i x), (Z.add_comm j y). reflexivity.
Qed.

(** [get_text] fails only with a [KeyError], and only when some document
    has no ['gray'] entry; when it succeeds every document has kept its
    other entries and has the OCR reading of its ['gray'] raster as text.
    After [cvt_color] it always succeeds, whatever ['gray'] and ['text'] the
    documents carried before. *)
Theorem get_text_outcome (img_list : list Doc) :
  match get_text img_list with
  | Ok l' => Forall2 text_added img_list l'
  | Raise e => e = KeyError /\ Exists (fun d => gray d = None) img_list
  end /\
  get_text (cvt_color img_list) = Ok (map prepared img_list).
Proof.
  split; [| apply get_text_cvt_color].
  unfold get_text. induction img_list as [| d l IH]; cbn [mapM].
  - constructor.
  - destruct (gray d) as [g |] eqn:G; cbn [item bind].
    + match goal with
      | |- context [mapM ?f l] => destruct (mapM f l) as [l' | e]
      end; cbn [bind].
      * constructor; [| exact IH].
        unfold text_added. cbn [oid title image cv gray text].
        split; [reflexivity |].
        split; [reflexivity | split; [reflexivity | split; [reflexivity |]]].
        split; [symmetry; exact G |].
        exists g. split; [exact G | reflexivity].
      * destruct IH as [-> IH]. split; [reflexivity |].
        apply Exists_cons_tl. exact IH.
    + split; [reflexivity |]. apply Exists_cons_hd. exact G.
Qed.

Lemma mapM_length {A B : Type} (f : A -> result B) (l : list A) (l' : list B) :
  mapM f l = Ok l' -> List.length l' = List.length l.
Proof.
  revert l'. induction l as [| a l IH]; intros l'; cbn [mapM].
  - intros H. inversion H. reflexivity.
  - destruct (f a) as [b | e]; cbn [bind]; [| discriminate].
    destruct (mapM f l) as [bs | e]; cbn [bind]; [| discriminate].
    intros H. inversion H. simpl. now rewrite (IH bs eq_refl).
Qed.

(** [search_page] and [phrase_in] agree: where [phrase_in] says yes,
    [search_page] returns one image per box with the caption
    "Results found in file <title>"; where it says no, [search_page] returns
    [None]; and both fail alike when the document has no text. *)
Theorem search_page_agrees_with_phrase_in
    (img : Doc) (search_phrase : string) (faces : list Box)
    (Hfaces : Forall box_nonneg faces) :
  match phrase_in img search_phrase with
  | Ok true =>
      exists images,
        search_page img search_phrase faces =
          Ok (Some (images, ("Results found in file " ++ title img)%string)) /\
        List.length images = List.length faces
  | Ok false => search_page img search_phrase faces = Ok None
  | Raise e => search_page img search_phrase faces = Raise e
  end.
Proof.
  unfold phrase_in, search_page.
  destruct (text img) as [t |]; cbn [item bind]; [| reflexivity].
  destruct (substring_in search_phrase t); [| reflexivity].
  destruct (get_faces_one_crop_per_box img faces Hfaces) as (images & Q & F).
  exists images. rewrite Q. split; [reflexivity |].
  symmetry. exact (Forall2_length F).
Qed.

End StageFacts.

Lemma get_faces_one_crop_per_box_witness :
  exists images,
    get_faces (page 0 "a.png" "x") [(0, 0, 1, 1); (0, 0, 2, 3)] = Ok images /\
    Forall2 (is_crop_of (dot white)) [(0, 0, 1, 1); (0, 0, 2, 3)] images.
Proof.
  apply (get_faces_one_crop_per_box (page 0 "a.png" "x")
           [(0, 0, 1, 1); (0, 0, 2, 3)]).
  repeat constructor; discriminate.
Defined.

Lemma search_page_agrees_with_phrase_in_witness :
  exists images,
    search_page (prepared (page 0 "a.png" "Is Chris here?")) "Chris"
      [(0, 0, 1, 1)]
    = Ok (Some (images, "Results found in file a.png"%string)) /\
    List.length images = 1%nat.
Proof.
  apply (search_page_agrees_with_phrase_in
           (prepared (page 0 "a.png" "Is Chris here?")) "Chris" [(0, 0, 1, 1)]).
  repeat constructor; discriminate.
Defined.

(** ** What a contact sheet shows *)

Lemma pix_paste_all_miss (ps : list ((Z * Z) * Image)) :
  forall (sheet : Image) (X Y : Z),
    (forall p, In p ps ->
       getpixel (snd p) (X - fst (fst p)) (Y - snd (fst p)) = None) ->
    pix (fold_left paste_at ps sheet) X Y = pix sheet X Y.
Proof.
  induction ps as [| p ps IH]; intros sheet X Y H; [reflexivity |].
  cbn [fold_left]. rewrite IH by (intros q Hq; apply H; right; exact Hq).
  specialize (H p (or_introl eq_refl)).
  unfold paste_at, paste. destruct p as [[ox oy] t]. cbn [fst snd pix] in *.
  now rewrite H.
Qed.

Lemma getpixel_same_size (s1 s2 : Image) (X Y : Z) :
  width s1 = width s2 -> height s1 = height s2 ->
  pix s1 X Y = pix s2 X Y ->
  getpixel s1 X Y = getpixel s2 X Y.
Proof.
  intros W H P. unfold getpixel, in_bounds. now rewrite W, H, P.
Qed.

Lemma combine_app_same {A B : Type} (a1 a2 : list A) (b1 b2 : list B) :
  List.length a1 = List.length b1 ->
  combine (a1 ++ a2) (b1 ++ b2) = combine a1 b1 ++ combine a2 b2.
Proof.
  revert b1. induction a1 as [| x a1 IH]; intros [| y b1] H;
    try discriminate; [reflexivity |].
  simpl. f_equal. apply IH. now inversion H.
Qed.

Lemma In_grid_cells (pos : Z * Z) (t : Image) (k m : nat) (l : list Image) :
  In (pos, t) (combine (map grid_position (seq k m)) l) ->
  exists j, (k <= j)%nat /\ pos = grid_position j.
Proof.
  intros H. apply in_combine_l in H. apply in_map_iff in H.
  destruct H as [j [Q Hj]]. apply in_seq in Hj.
  exists j. split; [lia | now symmetry].
Qed.

Section SheetContent.
Context {E : Externals}.

(** The thumbnails never reach the caption banner: above y = 50 the sheet
    shows the canvas as it was before the paste loop. *)
Theorem banner_untouched_by_thumbnails
    (img_list : list Image) (results : string) (x y : Z)
    (Hy : y < 50) :
  getpixel (make_contact_sheet img_list results) x y =
  getpixel (sheet_canvas (Z.of_nat (List.length img_list)) results) x y.
Proof.
  rewrite make_contact_sheet_pastes.
  apply getpixel_same_size; try apply size_paste_all.
  apply pix_paste_all_miss. intros [pos t'] Hin.
  apply In_grid_cells in Hin. destruct Hin as [j [_ ->]].
  apply getpixel_outside. unfold grid_position. cbn [fst snd].
  assert (0 <= Z.of_nat j / 5)
    by (apply Z.div_pos; [apply Nat2Z.is_nonneg | lia]).
  lia.
Qed.

(** Every thumbnail is shown in its own grid cell: the part of the [i]-th
    thumbnail that lies within 100x100 appears on the sheet at the cell
    [(100*(i mod 5), 50 + 100*(i/5))], and no later thumbnail covers it. *)
Theorem thumbnail_shown_in_its_cell
    (img_list : list Image) (results : string) (i : nat) (t : Image)
    (a b : Z)
    (Hi : nth_error img_list i = Some t)
    (Ha : 0 <= a < Z.min (width t) 100)
    (Hb : 0 <= b < Z.min (height t) 100) :
  getpixel (make_contact_sheet img_list results)
    (fst (grid_position i) + a) (snd (grid_position i) + b)
  = Some (pix t a b).
Proof.
  destruct (nth_error_split img_list i Hi) as (l1 & l2 & -> & Hlen).
  rewrite make_contact_sheet_pastes.
  set (canvas := sheet_canvas _ results).
  set (X := fst (grid_position i) + a).
  set (Y := snd (grid_position i) + b).
  assert (Hn : List.length (l1 ++ t :: l2) = (i + S (List.length l2))%nat)
    by (rewrite length_app; cbn [List.length]; lia).
  rewrite Hn, seq_app, map_app. cbn [seq map Nat.add].
  rewrite combine_app_same by (rewrite length_map, length_seq; lia).
  cbn [combine]. rewrite fold_left_app. cbn [fold_left].
  set (before := fold_left paste_at _ canvas).
  rewrite getpixel_inside.
  - f_equal. rewrite pix_paste_all_miss.
    + unfold paste_at, paste. cbn [fst snd].
      rewrite (surjective_pairing (grid_position i)). cbn [pix].
      unfold X, Y.
      replace (fst (grid_position i) + a - fst (grid_position i)) with a
        by lia.
      replace (snd (grid_position i) + b - snd (grid_position i)) with b
        by lia.
      rewrite getpixel_inside by lia. reflexivity.
    + intros [pos t'] Hin. apply In_grid_cells in Hin.
      destruct Hin as [j [Hj ->]]. apply getpixel_outside.
      unfold X, Y, grid_position. cbn [fst snd].
      assert (Hij : Z.of_nat i < Z.of_nat j) by lia.
      assert (0 <= Z.of_nat i) by apply Nat2Z.is_nonneg.
      Z.to_euclidean_division_equations. lia.
  - rewrite (proj1 (size_paste_all _ _)).
    unfold paste_at. rewrite width_paste.
    unfold before. rewrite (proj1 (size_paste_all _ _)).
    unfold canvas. rewrite width_sheet_canvas.
    unfold X, grid_position. cbn [fst].
    assert (0 <= Z.of_nat i) by apply Nat2Z.is_nonneg.
    Z.to_euclidean_division_equations. lia.
  - rewrite (proj2 (size_paste_all _ _)).
    unfold paste_at. rewrite height_paste.
    unfold before. rewrite (proj2 (size_paste_all _ _)).
    unfold canvas. rewrite height_sheet_canvas, Hn.
    unfold Y, grid_position, sheet_rows. cbn [snd].
    rewrite Nat2Z.inj_add, Nat2Z.inj_succ.
    set (m := Z.of_nat (List.length l2)).
    assert (0 <= m) by apply Nat2Z.is_nonneg.
    assert (0 <= Z.of_nat i) by apply Nat2Z.is_nonneg.
    destruct (Z.eqb_spec ((Z.of_nat i + Z.succ m) mod 5) 0);
      destruct (Z.eqb_spec (Z.of_nat i + Z.succ m) 0); cbn [negb];
      Z.to_euclidean_division_equations; lia.
Qed.

End SheetContent.

Lemma banner_untouched_by_thumbnails_witness :
  getpixel (@make_contact_sheet stub_externals [dot black] "r") 3 49 =
  getpixel (@sheet_canvas stub_externals 1 "r") 3 49.
Proof.
  exact (@banner_untouched_by_thumbnails stub_externals
           [dot black] "r" 3 49 ltac:(lia)).
Defined.

Lemma thumbnail_shown_in_its_cell_witness :
  getpixel
    (@make_contact_sheet stub_externals
       [dot white; dot white; dot white; dot white; dot white; dot black]
       "r")
    0 150
  = Some black.
Proof.
  exact (@thumbnail_shown_in_its_cell stub_externals
           [dot white; dot white; dot white; dot white; dot white; dot black]
           "r" 5%nat (dot black) 0 0 eq_refl
           ltac:(cbn; lia) ltac:(cbn; lia)).
Defined.

(** ** Stacking several sheets *)

Ltac decide_bounds :=
  repeat match goal with
         | |- context [Z.leb ?a ?b] => destruct (Z.leb_spec a b)
         | |- context [Z.ltb ?a ?b] => destruct (Z.ltb_spec a b)
         end.

(** On sheets of one width, stacking is associative: stacking a third sheet
    under two stacked ones gives the same image as stacking the first on top
    of the other two stacked. *)
Theorem concatenate_images_assoc (A B C : Image) (x y : Z)
    (HwB : width B = width A) (HwC : width C = width A)
    (HhA : 0 <= height A) (HhB : 0 <= height B) (HhC : 0 <= height C) :
  width (concatenate_images (concatenate_images A B) C) =
    width (concatenate_images A (concatenate_images B C)) /\
  height (concatenate_images (concatenate_images A B) C) =
    height (concatenate_images A (concatenate_images B C)) /\
  getpixel (concatenate_images (concatenate_images A B) C) x y =
    getpixel (concatenate_images A (concatenate_images B C)) x y.
Proof.
  split; [reflexivity |].
  split; [cbn [concatenate_images height paste Image_new]; lia |].
  apply getpixel_same_size;
    [reflexivity | cbn [concatenate_images height paste Image_new]; lia |].
  unfold concatenate_images.
  repeat (cbn [pix width height paste Image_new];
          unfold getpixel, in_bounds).
  rewrite !Z.sub_0_r.
  replace (y - height A - height B) with (y - (height A + height B)) by lia.
  rewrite ?HwB, ?HwC.
  decide_bounds; cbn [andb]; try reflexivity; lia.
Qed.

Lemma concatenate_images_assoc_witness :
  getpixel
    (concatenate_images (concatenate_images (dot white) (dot black))
       (dot white)) 0 1
  = getpixel
      (concatenate_images (dot white)
         (concatenate_images (dot black) (dot white))) 0 1.
Proof.
  exact (proj2 (proj2 (concatenate_images_assoc
                         (dot white) (dot black) (dot white) 0 1
                         eq_refl eq_refl
                         ltac:(cbn; lia) ltac:(cbn; lia) ltac:(cbn; lia)))).
Defined.

(** ** The orchestrator as a whole *)

Lemma sheet_rows_pos (n : Z) : 0 <= n -> 1 <= sheet_rows n.
Proof.
  intros Hn. unfold sheet_rows.
  destruct (Z.eqb_spec (n mod 5) 0); destruct (Z.eqb_spec n 0); cbn [negb];
    Z.to_euclidean_division_equations; lia.
Qed.

Section ProjectFacts.
Context {E : Externals}.

Lemma validated_faces_nonneg (d : Doc) : Forall box_nonneg (validated_faces d).
Proof.
  apply Forall_forall. intros [[[x y] w] h] Hin.
  exact (find_faces_on_nonneg _ _ x y w h Hin).
Qed.

Lemma page_height_min (d : Doc) : 150 <= page_height d.
Proof.
  unfold page_height.
  pose proof (sheet_rows_pos (Z.of_nat (List.length (validated_faces d)))
                (Nat2Z.is_nonneg _)).
  lia.
Qed.

Lemma make_contact_sheet_is_contact_sheet
    (img_list : list Image) (results : string) :
  is_contact_sheet (make_contact_sheet img_list results).
Proof.
  destruct (size_make_contact_sheet img_list results) as [W H].
  split; [exact W |]. rewrite H.
  pose proof (sheet_rows_pos (Z.of_nat (List.length img_list))
                (Nat2Z.is_nonneg _)).
  lia.
Qed.

(** *** The comparison of line 219 *)

(** A dictionary equals itself: each of its values is the same object on
    both sides. *)
Lemma dict_eq_self (d : Doc) : dict_eq (prepared d) (prepared d) = Ok true.
Proof.
  unfold dict_eq. cbn [prepared oid title gray text has_key Bool.eqb andb negb].
  rewrite String.eqb_refl, Nat.eqb_refl. cbn [negb bind option_eqb].
  now rewrite String.eqb_refl.
Qed.

(** Different titles settle the comparison at the first key. *)
Lemma dict_eq_title (a b : Doc) : title a <> title b -> dict_eq a b = Ok false.
Proof.
  intros H. unfold dict_eq.
  destruct (negb _); [reflexivity |].
  destruct (String.eqb_spec (title a) (title b)); [contradiction |].
  reflexivity.
Qed.


(** The comparison raises nothing but the [ValueError] of the rasters. *)
Lemma dict_eq_raise (a b : Doc) (e : exn) :
  dict_eq a b = Raise e -> e = ValueError.
Proof.
  unfold dict_eq.
  destruct (negb (Bool.eqb _ _ && _)); [discriminate |].
  destruct (negb (title a =? title b)%string); [discriminate |].
  destruct (Nat.eqb (oid a) (oid b)); cbn [bind]; [discriminate |].
  destruct (rasters_eq (oid a) (oid b)) as [[|] |]; cbn [bind];
    try discriminate.
  intros H. now inversion H.
Qed.

(** *** The loop *)

(** What the loop body does with a matching document: its sheet [sd] is the
    same whatever the accumulator holds. *)
Lemma project_step_match (phrase : string) (d : Doc) :
  matches phrase d = true ->
  exists sd,
    width sd = 500 /\ height sd = page_height d /\
    forall first rest contact_sheet,
      project_step (first :: rest) phrase contact_sheet (prepared d) =
      (same <- dict_eq (prepared d) first ;;
       if same : bool then Ok (Some sd)
       else cs <- local contact_sheet ;;
            Ok (Some (concatenate_images cs sd))).
Proof.
  intros Hm. unfold matches in Hm.
  destruct (get_faces_one_crop_per_box (prepared d) (validated_faces d)
              (validated_faces_nonneg d)) as (images & Q & F).
  exists (make_contact_sheet (make_thumbnails images)
            ("Results found in file " ++ title (prepared d))%string).
  split; [apply size_make_contact_sheet |].
  split.
  - rewrite (proj2 (size_make_contact_sheet _ _)).
    unfold page_height, make_thumbnails.
    now rewrite length_map, <- (Forall2_length F).
  - intros first rest cs.
    unfold project_step, find_faces, phrase_in, search_page.
    cbn [prepared gray text item bind]. rewrite Hm. cbn [bind].
    unfold validated_faces in Q. rewrite Q. reflexivity.
Qed.

Lemma project_loop_app (img_list : list Doc) (phrase : string)
    (l1 l2 : list Doc) :
  forall cs,
    project_loop img_list phrase cs (l1 ++ l2) =
    (cs' <- project_loop img_list phrase cs l1 ;;
     project_loop img_list phrase cs' l2).
Proof.
  induction l1 as [| d l1 IH]; intros cs; [reflexivity |].
  cbn [app project_loop].
  destruct (project_step img_list phrase cs d) as [cs1 | e]; cbn [bind];
    [apply IH | reflexivity].
Qed.

Lemma project_loop_head (first : Doc) (rest rest' : list Doc)
    (phrase : string) (todo : list Doc) :
  forall cs,
    project_loop (first :: rest) phrase cs todo =
    project_loop (first :: rest') phrase cs todo.
Proof.
  induction todo as [| d todo IH]; intros cs; [reflexivity |].
  cbn [project_loop].
  change (project_step (first :: rest) phrase cs d)
    with (project_step (first :: rest') phrase cs d).
  destruct (project_step (first :: rest') phrase cs d); cbn [bind];
    [apply IH | reflexivity].
Qed.

(** With a sheet in the accumulator, documents whose titles differ from
    the first one's are stacked below it one after the other. *)
Lemma project_loop_stack (first : Doc) (rest : list Doc) (phrase : string)
    (todo : list Doc) :
  (forall d, In d todo -> matches phrase d = true ->
             title d <> title first) ->
  forall acc, width acc = 500 ->
    exists acc',
      project_loop (first :: rest) phrase (Some acc) (map prepared todo)
        = Ok (Some acc') /\
      width acc' = 500 /\
      height acc' = height acc + stacked_height phrase todo.
Proof.
  induction todo as [| d todo IH]; intros Ht acc W.
  - exists acc. cbn [map project_loop stacked_height fold_right].
    repeat split; try assumption. lia.
  - cbn [map project_loop stacked_height fold_right].
    fold (stacked_height phrase todo).
    assert (Ht' : forall d', In d' todo -> matches phrase d' = true ->
                    title d' <> title first)
      by (intros d' Hd'; apply Ht; right; exact Hd').
    destruct (matches phrase d) eqn:Hm.
    + destruct (project_step_match phrase d Hm) as (sd & Wd & Hd & S).
      rewrite S.
      rewrite (dict_eq_title (prepared d) first)
        by exact (Ht d (or_introl eq_refl) Hm).
      cbn [local bind].
      destruct (IH Ht' (concatenate_images acc sd)) as (acc' & L & W' & K).
      { cbn [concatenate_images width paste Image_new]. exact W. }
      exists acc'. repeat split; try assumption.
      rewrite K. cbn [concatenate_images height paste Image_new]. lia.
    + rewrite project_step_skip by exact Hm. cbn [bind].
      exact (IH Ht' acc W).
Qed.

(** With a sheet in the accumulator the loop ends with a sheet, unless a
    comparison raises. *)
Lemma project_loop_some (first : Doc) (rest : list Doc) (phrase : string)
    (todo : list Doc) :
  forall acc, width acc = 500 -> 150 <= height acc ->
    (exists acc',
       project_loop (first :: rest) phrase (Some acc) (map prepared todo)
         = Ok (Some acc') /\
       width acc' = 500 /\ 150 <= height acc') \/
    project_loop (first :: rest) phrase (Some acc) (map prepared todo)
      = Raise ValueError.
Proof.
  induction todo as [| d todo IH]; intros acc W H.
  - left. exists acc. repeat split; assumption.
  - cbn [map project_loop].
    destruct (matches phrase d) eqn:Hm.
    + destruct (project_step_match phrase d Hm) as (sd & Wd & Hd & S).
      rewrite S. pose proof (page_height_min d) as Hmin.
      destruct (dict_eq (prepared d) first) as [[|] | e] eqn:Q;
        cbn [local bind].
      * apply IH; [exact Wd | lia].
      * apply IH.
        -- cbn [concatenate_images width paste Image_new]. exact W.
        -- cbn [concatenate_images height paste Image_new]. lia.
      * right. now rewrite (dict_eq_raise _ _ _ Q).
    + rewrite project_step_skip by exact Hm. cbn [bind]. apply IH; assumption.
Qed.

(** With nothing in the accumulator everything hangs on the first matching
    document and its comparison with the first element of the list. *)
Lemma project_loop_none (first : Doc) (rest : list Doc) (phrase : string)
    (todo : list Doc) :
  match find (matches phrase) todo with
  | None =>
      project_loop (first :: rest) phrase None (map prepared todo) = Ok None
  | Some d =>
      match dict_eq (prepared d) first with
      | Ok true =>
          (exists acc',
             project_loop (first :: rest) phrase None (map prepared todo)
               = Ok (Some acc') /\
             width acc' = 500 /\ 150 <= height acc') \/
          project_loop (first :: rest) phrase None (map prepared todo)
            = Raise ValueError
      | Ok false =>
          project_loop (first :: rest) phrase None (map prepared todo)
            = Raise UnboundLocalError
      | Raise e =>
          e = ValueError /\
          project_loop (first :: rest) phrase None (map prepared todo)
            = Raise ValueError
      end
  end.
Proof.
  induction todo as [| d todo IH]; [reflexivity |].
  cbn [find map project_loop].
  destruct (matches phrase d) eqn:Hm.
  - destruct (project_step_match phrase d Hm) as (sd & Wd & Hd & S).
    rewrite S. pose proof (page_height_min d) as Hmin.
    destruct (dict_eq (prepared d) first) as [[|] | e] eqn:Q;
      cbn [local bind].
    + apply project_loop_some; [exact Wd | lia].
    + reflexivity.
    + rewrite (dict_eq_raise _ _ _ Q). split; reflexivity.
  - rewrite project_step_skip by exact Hm. cbn [bind]. exact IH.
Qed.



(** [do_project] returns a sheet, or fails on the unassigned
    [contact_sheet], or fails with the [ValueError] of a comparison of
    rasters; it never fails in any other way.  Without a matching document
    it fails on [contact_sheet]; otherwise the first matching document is
    compared with [img_list[0]]: false, it fails on [contact_sheet]; no
    truth value, it fails with [ValueError]; true, it returns a sheet 500
    wide and at least 150 high unless a later comparison raises. *)
Theorem do_project_outcome (img_list : list Doc) (phrase_to_search : string) :
  match find (matches phrase_to_search) img_list, img_list with
  | Some d, first :: _ =>
      match dict_eq (prepared d) (prepared first) with
      | Ok true =>
          (exists sheet,
             do_project img_list phrase_to_search = Ok sheet /\
             width sheet = 500 /\ 150 <= height sheet) \/
          do_project img_list phrase_to_search = Raise ValueError
      | Ok false =>
          do_project img_list phrase_to_search = Raise UnboundLocalError
      | Raise e =>
          e = ValueError /\
          do_project img_list phrase_to_search = Raise ValueError
      end
  | _, _ => do_project img_list phrase_to_search = Raise UnboundLocalError
  end.
Proof.
  unfold do_project. rewrite get_text_cvt_color. cbn [bind].
  destruct img_list as [| first rest].
  - reflexivity.
  - pose proof (project_loop_none (prepared first) (map prepared rest)
                  phrase_to_search (first :: rest)) as P.
    change (map prepared (first :: rest))
      with (prepared first :: map prepared rest) in *.
    destruct (find (matches phrase_to_search) (first :: rest)) as [d |].
    + destruct (dict_eq (prepared d) (prepared first)) as [[|] | e].
      * destruct P as [(acc' & L & W & H) | P].
        -- left. exists acc'. rewrite L. repeat split; assumption.
        -- right. rewrite P. reflexivity.
      * rewrite P. reflexivity.
      * destruct P as [-> P]. split; [reflexivity |]. rewrite P. reflexivity.
    + rewrite P. reflexivity.
Qed.

(** When the first document matches, and no later matching document has
    its title, [do_project] returns a sheet 500 wide whose height is the sum
    of the heights of the sheets of the matching documents: each contributes
    [rows*100 + 50] for its validated faces, the others nothing. *)
Theorem do_project_stacks_matching_pages
    (first : Doc) (rest : list Doc) (phrase_to_search : string)
    (Hfirst : matches phrase_to_search first = true)
    (Htitles : forall d, In d rest -> matches phrase_to_search d = true ->
                 title d <> title first) :
  exists sheet,
    do_project (first :: rest) phrase_to_search = Ok sheet /\
    width sheet = 500 /\
    height sheet = stacked_height phrase_to_search (first :: rest).
Proof.
  unfold do_project. rewrite get_text_cvt_color.
  cbn [bind map project_loop stacked_height fold_right].
  fold (stacked_height phrase_to_search rest). rewrite Hfirst.
  destruct (project_step_match phrase_to_search first Hfirst)
    as (sd & Wd & Hd & S).
  rewrite S, dict_eq_self. cbn [bind].
  destruct (project_loop_stack (prepared first) (map prepared rest)
              phrase_to_search rest Htitles sd Wd)
    as (acc' & L & W' & K).
  exists acc'. rewrite L. split; [reflexivity |]. split; [exact W' |].
  rewrite K. lia.
Qed.

(** When the first document matches and the same dictionary occurs again
    later in the list, everything stacked before its second occurrence is
    dropped: provided the matching documents in between have other titles,
    the result is that of the list cut down to the first document and what
    follows its second occurrence. *)
Theorem do_project_restarts_at_repeated_first
    (first : Doc) (mid rest : list Doc) (phrase_to_search : string)
    (Hfirst : matches phrase_to_search first = true)
    (Hmid : forall d, In d mid -> matches phrase_to_search d = true ->
              title d <> title first) :
  do_project (first :: mid ++ first :: rest) phrase_to_search =
  do_project (first :: rest) phrase_to_search.
Proof.
  unfold do_project. rewrite !get_text_cvt_color. cbn [bind].
  f_equal.
  cbn [map project_loop]. rewrite map_app. cbn [map].
  destruct (project_step_match phrase_to_search first Hfirst)
    as (sd & Wd & Hd & S).
  rewrite !S, dict_eq_self. cbn [bind].
  rewrite project_loop_app.
  destruct (project_loop_stack (prepared first)
              (map prepared mid ++ prepared first :: map prepared rest)
              phrase_to_search mid Hmid sd Wd)
    as (acc' & L & _).
  rewrite L. cbn [bind project_loop].
  rewrite S, dict_eq_self. cbn [bind].
  apply project_loop_head.
Qed.

Lemma project_loop_filter (img_list : list Doc) (phrase : string)
    (todo : list Doc) :
  forall cs,
    project_loop img_list phrase cs (map prepared todo) =
    project_loop img_list phrase cs
      (map prepared (filter (matches phrase) todo)).
Proof.
  induction todo as [| d todo IH]; intros cs; [reflexivity |].
  cbn [filter]. destruct (matches phrase d) eqn:Hm; cbn [map project_loop].
  - destruct (project_step img_list phrase cs (prepared d)); cbn [bind];
      [apply IH | reflexivity].
  - rewrite project_step_skip by exact Hm. cbn [bind]. apply IH.
Qed.

(** Documents whose text does not contain the phrase contribute nothing:
    leaving them out of the rest of the list does not change the result. *)
Theorem do_project_skips_unmatched
    (first : Doc) (rest : list Doc) (phrase_to_search : string) :
  do_project (first :: rest) phrase_to_search =
  do_project (first :: filter (matches phrase_to_search) rest)
    phrase_to_search.
Proof.
  unfold do_project. rewrite !get_text_cvt_color. cbn [bind]. f_equal.
  cbn [map project_loop].
  change (project_step
            (prepared first
             :: map prepared (filter (matches phrase_to_search) rest))
            phrase_to_search None (prepared first))
    with (project_step (prepared first :: map prepared rest)
            phrase_to_search None (prepared first)).
  destruct (project_step (prepared first :: map prepared rest)
              phrase_to_search None (prepared first)) as [cs | e];
    cbn [bind]; [| reflexivity].
  rewrite (project_loop_head (prepared first)
             (map prepared (filter (matches phrase_to_search) rest))
             (map prepared rest)).
  apply project_loop_filter.
Qed.

(** Sheets are stacked in the order of the documents: a further matching
    document at the end of the list, with a title other than the first
    document's, puts its own sheet under what the list gave without it. *)
Theorem do_project_appends_below
    (first : Doc) (rest : list Doc) (b : Doc) (phrase_to_search : string)
    (sheet sheet_b : Image)
    (Hlist : do_project (first :: rest) phrase_to_search = Ok sheet)
    (Hb : do_project [b] phrase_to_search = Ok sheet_b)
    (Htitle : title b <> title first) :
  do_project (first :: rest ++ [b]) phrase_to_search =
  Ok (concatenate_images sheet sheet_b).
Proof.
  unfold do_project in *. rewrite get_text_cvt_color in *. cbn [bind] in *.
  assert (Hm : matches phrase_to_search b = true).
  { destruct (matches phrase_to_search b) eqn:Hm; [reflexivity |].
    cbn [map project_loop] in Hb.
    rewrite project_step_skip in Hb by exact Hm. discriminate Hb. }
  destruct (project_step_match phrase_to_search b Hm) as (sd & _ & _ & S).
  cbn [map project_loop] in Hb. rewrite S, dict_eq_self in Hb.
  cbn [local bind] in Hb.
  inversion Hb; subst sheet_b. clear Hb.
  assert (R : project_loop (map prepared (first :: rest ++ [b]))
                phrase_to_search None (map prepared (first :: rest ++ [b])) =
              (cs' <- project_loop (map prepared (first :: rest))
                        phrase_to_search None (map prepared (first :: rest)) ;;
               project_loop (map prepared (first :: rest)) phrase_to_search
                 cs' [prepared b])).
  { change (first :: rest ++ [b]) with ((first :: rest) ++ [b]).
    rewrite map_app, project_loop_app. cbn [map app].
    rewrite (project_loop_head (prepared first)
               (map prepared rest ++ [prepared b]) (map prepared rest)).
    destruct (project_loop (prepared first :: map prepared rest)
                phrase_to_search None (prepared first :: map prepared rest));
      cbn [bind]; [apply project_loop_head | reflexivity]. }
  rewrite R. clear R.
  destruct (project_loop (map prepared (first :: rest)) phrase_to_search None
              (map prepared (first :: rest)))
    as [[acc |] | e]; cbn [local bind] in Hlist; try discriminate Hlist.
  inversion Hlist; subst acc. clear Hlist.
  cbn [bind map project_loop]. rewrite S.
  rewrite (dict_eq_title (prepared b) (prepared first)) by exact Htitle.
  reflexivity.
Qed.

End ProjectFacts.


Lemma do_project_stacks_matching_pages_witness :
  exists sheet,
    do_project
      [page 0 "a.png" "Is Chris here?"; page 1 "b.png" "no";
       page 2 "c.png" "Chris"]
      "Chris" = Ok sheet /\
    width sheet = 500 /\
    height sheet = 300.
Proof.
  refine (do_project_stacks_matching_pages
            (page 0 "a.png" "Is Chris here?")
            [page 1 "b.png" "no"; page 2 "c.png" "Chris"] "Chris"
            eq_refl _).
  intros d [<- | [<- | []]] _; discriminate.
Defined.

Lemma do_project_restarts_at_repeated_first_witness :
  do_project
    [page 0 "a.png" "Chris"; page 1 "b.png" "Chris too";
     page 0 "a.png" "Chris"]
    "Chris"
  = do_project [page 0 "a.png" "Chris"] "Chris".
Proof.
  refine (do_project_restarts_at_repeated_first
            (page 0 "a.png" "Chris") [page 1 "b.png" "Chris too"] [] "Chris"
            eq_refl _).
  intros d [<- | []] _. discriminate.
Defined.

Lemma do_project_appends_below_witness :
  exists sheet sheet_b,
    do_project [page 0 "a.png" "Chris"; page 1 "b.png" "Chris too"] "Chris"
    = Ok (concatenate_images sheet sheet_b).
Proof.
  destruct (do_project [page 0 "a.png" "Chris"] "Chris") as [sa | e] eqn:Qa;
    [| discriminate Qa].
  destruct (do_project [page 1 "b.png" "Chris too"] "Chris")
    as [sb | e] eqn:Qb; [| discriminate Qb].
  exists sa, sb.
  apply (do_project_appends_below
           (page 0 "a.png" "Chris") [] (page 1 "b.png" "Chris too") "Chris"
           sa sb Qa Qb).
  discriminate.
Defined.

(** ** The canvas is exactly as high as the grid needs *)

Section SheetHeight.
Context {E : Externals}.

(** A sheet with at least one thumbnail ends where the cell of its last
    thumbnail ends: no cell hangs over the canvas and no row is left
    empty. *)
Theorem sheet_ends_with_last_cell
    (t : Image) (img_list : list Image) (results : string) :
  height (make_contact_sheet (t :: img_list) results) =
  snd (grid_position (List.length img_list)) + 100.
Proof.
  rewrite (proj2 (size_make_contact_sheet _ _)).
  unfold sheet_rows, grid_position. cbn [snd List.length].
  rewrite Nat2Z.inj_succ.
  set (m := Z.of_nat (List.length img_list)).
  assert (0 <= m) by apply Nat2Z.is_nonneg.
  destruct (Z.eqb_spec (Z.succ m mod 5) 0);
    destruct (Z.eqb_spec (Z.succ m) 0); cbn [negb];
    Z.to_euclidean_division_equations; lia.
Qed.

End SheetHeight.
